(** * The adoption model of [market_network.ipynb]

    A shallow embedding of the two classes of the notebook,
    [ConsumerAgent] and [MarketModel], and of the run loop that drives
    them, followed by the properties of the model.

    - Agents are Python objects that refer to each other (an agent's
      [neighbors] list holds the neighbouring agent objects).  The
      embedding keeps all agents in one store, the list [agents] of
      the model, an agent being named by its position; [neighbors]
      holds positions, and so does the sequence that
      [neighbors.random()] returns.  A write to an agent of such a
      sequence is a write to the store.
    - [self.model.random] is a stateful generator shared by every
      agent.  It is embedded as an oracle: the [k]-th call made on the
      generator is answered from position [k] of a fixed sequence, so
      that every possible behaviour of a deterministic generator is
      covered, and every call is appended to a history.
    - Probabilities and samples are Python floats; the model only ever
      compares them with [<], which is exact, so they are embedded as
      rationals.
    - A raised exception aborts the run: fallible operations return a
      [result]. *)

From Stdlib Require Import QArith Permutation Sorted.
From stdpp Require Import base option list sets.

Set Default Proof Using "Type".
Set Warnings "-clear-no-such-hyp".

(** ** Exceptions *)

Inductive error : Set :=
| IndexError       (* random choice from an empty sequence *)
| NetworkXError.   (* raised by the graph constructor *)

Inductive result (A : Type) : Type :=
| Ok (a : A)
| Raise (e : error).
Arguments Ok {A} a.
Arguments Raise {A} e.

#[global] Instance result_ret : MRet result := @Ok.
#[global] Instance result_bind : MBind result :=
  λ A B f m, match m with Ok a => f a | Raise e => Raise e end.
#[global] Instance result_fmap : FMap result :=
  λ A B f m, match m with Ok a => Ok (f a) | Raise e => Raise e end.

(** ** The random generator [model.random] *)

Inductive draw : Type :=
| Chosen (k : nat)    (* [choice]: the position that was picked *)
| Sampled (x : Q).    (* [random()]: the sample that was returned *)

Record Random : Type := mkRandom {
  calls : nat;            (* number of calls made so far *)
  floats : nat → Q;       (* answer to call [k] when it is [random()] *)
  picks : nat → nat;      (* answer to call [k] when it is a choice *)
  history : list draw     (* the calls made so far, oldest first *)
}.

Definition advance (r : Random) (d : draw) : Random :=
  {| calls := S (calls r); floats := floats r; picks := picks r;
     history := history r ++ [d] |}.

(** [rng.random()] *)
Definition rng_random (r : Random) : Q * Random :=
  let x := floats r (calls r) in (x, advance r (Sampled x)).

(** [rng.choice(l)]: one element of [l], drawn with the generator.
    Nothing can be drawn from an empty list: the call raises. *)
Definition rng_choice {A} (r : Random) (l : list A) : result (A * Random) :=
  match l with
  | [] => Raise IndexError
  | d :: _ =>
    let k := picks r (calls r) mod length l in
    Ok (nth k l d, advance r (Chosen k))
  end.

(** [l.random()] of an agent list: the framework draws one agent of
    [l] with the model's generator and returns the sequence that holds
    this one agent (a sequence of agents, not an agent). *)
Definition AgentList_random (r : Random) (l : list nat)
  : result (list nat * Random) :=
  '(j, r) ← rng_choice r l; Ok ([j], r).

(** The truth value of a sequence, as [not] and [if] take it: a
    sequence is true when it is not empty. *)
Definition truth {A} (l : list A) : bool :=
  match l with
  | [] => false
  | _ :: _ => true
  end.

(** [x < y] on samples and probabilities *)
Definition Qltb (x y : Q) : bool :=
  (Qnum x * Z.pos (Qden y) <? Qnum y * Z.pos (Qden x))%Z.

(** ** Data *)

Record Agent : Type := mkAgent {
  ad_effectiveness : Q;
  adoption_fraction : Q;
  contact_rate : Z;
  become_adopter : bool;
  is_adopter : bool;
  neighbors : list nat
}.

Definition with_become_adopter (b : bool) (a : Agent) : Agent :=
  {| ad_effectiveness := ad_effectiveness a;
     adoption_fraction := adoption_fraction a;
     contact_rate := contact_rate a;
     become_adopter := b;
     is_adopter := is_adopter a;
     neighbors := neighbors a |}.

Definition with_is_adopter (b : bool) (a : Agent) : Agent :=
  {| ad_effectiveness := ad_effectiveness a;
     adoption_fraction := adoption_fraction a;
     contact_rate := contact_rate a;
     become_adopter := become_adopter a;
     is_adopter := b;
     neighbors := neighbors a |}.

Definition with_neighbors (l : list nat) (a : Agent) : Agent :=
  {| ad_effectiveness := ad_effectiveness a;
     adoption_fraction := adoption_fraction a;
     contact_rate := contact_rate a;
     become_adopter := become_adopter a;
     is_adopter := is_adopter a;
     neighbors := l |}.

(** The [parameters] dictionary.  A key of a dictionary may be absent;
    [seed] is the one the model itself never reads. *)
Record Parameters : Type := mkParameters {
  seed : option Z;
  steps : nat;
  n_agents : nat;
  n_neighbors : nat;
  network_randomness : Q
}.

(** A graph on the nodes [0 .. n-1]: the adjacency list of every node. *)
Definition Graph : Type := list (list nat).

(** [nx.watts_strogatz_graph(n, k, p)] is a function of the networkx
    library; the model is parametric in it.  The notebook passes no
    seed to it, so its rewiring draws from the global generator of
    Python, which is not part of the model: a [GraphConstructor] is the
    constructor as it answers the one call that the setup of a run
    makes, and two runs have two constructors. *)
Definition GraphConstructor : Type := nat → nat → Q → result Graph.

Record Model : Type := mkModel {
  p : Parameters;
  t : nat;
  random : Random;
  n_adopters : nat;
  agents : list Agent;
  network : Graph;
  recorded : list (nat * nat)   (* rows [(t, n_adopters)], oldest first *)
}.

Definition set_random (r : Random) (m : Model) : Model :=
  {| p := p m; t := t m; random := r; n_adopters := n_adopters m;
     agents := agents m; network := network m; recorded := recorded m |}.

Definition set_agents (l : list Agent) (m : Model) : Model :=
  {| p := p m; t := t m; random := random m; n_adopters := n_adopters m;
     agents := l; network := network m; recorded := recorded m |}.

Definition set_n_adopters (n : nat) (m : Model) : Model :=
  {| p := p m; t := t m; random := random m; n_adopters := n;
     agents := agents m; network := network m; recorded := recorded m |}.

Definition set_network (g : Graph) (m : Model) : Model :=
  {| p := p m; t := t m; random := random m; n_adopters := n_adopters m;
     agents := agents m; network := g; recorded := recorded m |}.

Definition set_t (k : nat) (m : Model) : Model :=
  {| p := p m; t := k; random := random m; n_adopters := n_adopters m;
     agents := agents m; network := network m; recorded := recorded m |}.

(** [model.record('n_adopters')] in a time step that has no row yet:
    the row of the time step is added.  This is the case at every call
    of a run, which records once after setup and once in every time
    step; a second call within one time step would write over the row
    of the first, which this definition does not do. *)
Definition record (m : Model) : Model :=
  {| p := p m; t := t m; random := random m; n_adopters := n_adopters m;
     agents := agents m; network := network m;
     recorded := recorded m ++ [(t m, n_adopters m)] |}.

(** ** class ConsumerAgent *)

Module ConsumerAgent.

(** [setup(self)]: the attributes of a new agent. *)
Definition setup : Agent :=
  {| ad_effectiveness := 1 # 100;
     adoption_fraction := 1 # 100;
     contact_rate := 1;
     become_adopter := false;
     is_adopter := false;
     neighbors := [] |}.

(** [get_neighbors(self)] *)
Definition get_neighbors (self : nat) (m : Model) : Model :=
  set_agents
    (alter (with_neighbors (default [] (network m !! self))) self (agents m)) m.

(** [adopt(self, probability)] *)
Definition adopt (self : nat) (probability : Q) (m : Model) : Model :=
  let '(x, rng) := rng_random (random m) in
  if Qltb x probability
  then set_agents (alter (with_become_adopter true) self (agents m))
                  (set_random rng m)
  else set_random rng m.

(** [partner.adopt(probability=partner.adoption_fraction)] on a
    sequence of agents: the framework forwards the call to every agent
    of the sequence. *)
Definition adopt_all (partner : list nat) (m : Model) : Model :=
  foldl (λ m j, match agents m !! j with
                | Some pa => adopt j (adoption_fraction pa) m
                | None => m
                end) m partner.

(** One turn of the loop of [step]:
    [partner = self.neighbors.random()], then the test
    [not partner.is_adopter] and the call of [partner.adopt].
    [partner] is a sequence of agents, and [partner.is_adopter] is the
    sequence of the values of the attribute, one for every agent of
    [partner]; the test takes its truth value.  (A position outside
    the store names no agent; Python has objects where the store has
    positions, and the branches [None] are there for the functions to
    be total.) *)
Definition contact (self : nat) (m : Model) : result Model :=
  match agents m !! self with
  | None => Ok m
  | Some a =>
    '(partner, rng) ← AgentList_random (random m) (neighbors a);
    let m := set_random rng m in
    let partner_is_adopter := (λ j, is_adopter <$> agents m !! j) <$> partner in
    if negb (truth partner_is_adopter)
    then Ok (adopt_all partner m)
    else Ok m
  end.

(** [for _ in range(n)] *)
Fixpoint contacts (n : nat) (self : nat) (m : Model) : result Model :=
  match n with
  | O => Ok m
  | S n => m ← contact self m; contacts n self m
  end.

(** [step(self)] *)
Definition step (self : nat) (m : Model) : result Model :=
  match agents m !! self with
  | None => Ok m
  | Some a =>
    if is_adopter a
    then contacts (Z.to_nat (contact_rate a)) self m
    else Ok (adopt self (ad_effectiveness a) m)
  end.

(** [update(self)] *)
Definition update (self : nat) (m : Model) : Model :=
  match agents m !! self with
  | None => m
  | Some a =>
    if become_adopter a
    then set_n_adopters (S (n_adopters m))
           (set_agents
              (alter (λ a, with_become_adopter false (with_is_adopter true a))
                     self (agents m)) m)
    else m
  end.

End ConsumerAgent.

(** ** Calls on an agent list

    [agents.method()] calls the method on every agent of the list, in
    the order of the list. *)

Fixpoint for_each (f : nat → Model → result Model) (order : list nat)
    (m : Model) : result Model :=
  match order with
  | [] => Ok m
  | i :: order => m ← f i m; for_each f order m
  end.

Definition agent_ids (m : Model) : list nat := seq 0 (length (agents m)).

(** ** class MarketModel *)

Module MarketModel.

(** [setup(self)] *)
Definition setup (watts_strogatz_graph : GraphConstructor) (m : Model)
  : result Model :=
  graph ← watts_strogatz_graph (n_agents (p m)) (n_neighbors (p m))
                               (network_randomness (p m));
  let m := set_n_adopters 0 m in
  let m := set_agents (replicate (n_agents (p m)) ConsumerAgent.setup) m in
  let m := set_network graph m in
  Ok (foldl (λ m i, ConsumerAgent.get_neighbors i m) m (agent_ids m)).

(** [step(self)] *)
Definition step (m : Model) : result Model :=
  for_each ConsumerAgent.step (agent_ids m) m.

(** [update(self)] *)
Definition update (m : Model) : Model :=
  record (foldl (λ m i, ConsumerAgent.update i m) m (agent_ids m)).

(** [end(self)]: the vector that [agents.record('is_adopter')] stores. *)
Definition end_ (m : Model) : list bool := is_adopter <$> agents m.

End MarketModel.

(** ** The run loop

    The loop is the framework's ([Model.run] of agentpy).  The notebook
    states its protocol: [setup()] is called when the simulation
    starts, [step()] in every time step, and [update()] after [setup()]
    and after every [step()]; the run makes [steps] time steps.  The
    clock [t] is 0 at the start and counts the time steps begun. *)

(** [MarketModel(parameters)], with the generator the framework made. *)
Definition new_model (parameters : Parameters) (rng : Random) : Model :=
  {| p := parameters; t := 0; random := rng; n_adopters := 0;
     agents := []; network := []; recorded := [] |}.

Definition sim_setup (ws : GraphConstructor) (m : Model) : result Model :=
  m ← MarketModel.setup ws m; Ok (MarketModel.update m).

Definition sim_step (m : Model) : result Model :=
  m ← MarketModel.step (set_t (S (t m)) m); Ok (MarketModel.update m).

Fixpoint sim_steps (n : nat) (m : Model) : result Model :=
  match n with
  | O => Ok m
  | S n => m ← sim_step m; sim_steps n m
  end.

(** [model.run()] *)
Definition run (ws : GraphConstructor) (parameters : Parameters)
    (rng : Random) : result Model :=
  m ← sim_setup ws (new_model parameters rng);
  sim_steps (steps parameters) m.

(** * Vocabulary of the properties *)

(** ** The writes of phase 1 *)

(** The store and generator of [m] replaced. *)
Definition put (l : list Agent) (r : Random) (m : Model) : Model :=
  set_agents l (set_random r m).

(** The store [l] with the flags [become_adopter] of the agents at the
    positions [T] set. *)
Definition mark (T : list nat) (l : list Agent) : list Agent :=
  imap (λ j a, if bool_decide (j ∈ T) then with_become_adopter true a else a) l.

(** Everything of a store but its [become_adopter] flags. *)
Definition static (l : list Agent) : list Agent :=
  with_become_adopter false <$> l.

(** Agent [j] of the store is not an adopter. *)
Definition waiting (l : list Agent) (j : nat) : Prop :=
  ∃ a, l !! j = Some a ∧ is_adopter a = false.

(** Every agent of the store has a neighbour. *)
Definition connected (l : list Agent) : Prop :=
  Forall (λ a, neighbors a ≠ []) l.

(** ** The draws of an adopter *)

(** The generator after [n] draws of a partner in [nbrs]. *)
Fixpoint choices (n : nat) (nbrs : list nat) (r : Random) : result Random :=
  match n with
  | O => Ok r
  | S n => '(_, r) ← rng_choice r nbrs; choices n nbrs r
  end.

(** The generator [r] after [n] more calls, all of them choices among
    [len] elements: the choices are the answers of [r] to these calls. *)
Definition chosen (n len : nat) (r : Random) : Random :=
  {| calls := calls r + n; floats := floats r; picks := picks r;
     history := history r ++
                ((λ i, Chosen (picks r (calls r + i) mod len)) <$> seq 0 n) |}.

(** The positions whose flag one [step] of agent [self] sets, and the
    generator it leaves. *)
Definition outcome (self : nat) (l : list Agent) (r : Random)
  : result (list nat * Random) :=
  match l !! self with
  | None => Ok ([], r)
  | Some a =>
    if is_adopter a
    then r' ← choices (Z.to_nat (contact_rate a)) (neighbors a) r;
         Ok ([], r')
    else let '(x, r') := rng_random r in
         Ok (if Qltb x (ad_effectiveness a) then [self] else [], r')
  end.

(** ** The commit *)

(** What [update] does to one agent. *)
Definition commit (a : Agent) : Agent :=
  if become_adopter a then with_become_adopter false (with_is_adopter true a)
  else a.

(** The number of agents of [l] on which [f] holds. *)
Fixpoint count (f : Agent → bool) (l : list Agent) : nat :=
  match l with
  | [] => 0
  | a :: l => (if f a then 1 else 0) + count f l
  end.

(** The number of agents that are adopters in [l'] and were not in [l]. *)
Fixpoint transitions (l l' : list Agent) : nat :=
  match l, l' with
  | a :: l, a' :: l' =>
    (if negb (is_adopter a) && is_adopter a' then 1 else 0) + transitions l l'
  | _, _ => 0
  end.

(** The flag of agent [i]. *)
Definition flagged (l : list Agent) (i : nat) : bool :=
  match l !! i with Some a => become_adopter a | None => false end.

(** No flag is set: the state of the store between two ticks. *)
Definition clean (l : list Agent) : Prop :=
  Forall (λ a, become_adopter a = false) l.

(** Flags are set on agents that are not adopters only: the state of
    the store between the two phases of a tick. *)
Definition sound (l : list Agent) : Prop :=
  Forall (λ a, become_adopter a = true → is_adopter a = false) l.

(** ** Runs *)

(** The agents that [setup] creates on the graph [g]. *)
Definition fresh_agents (g : Graph) (n : nat) : list Agent :=
  imap (λ j, with_neighbors (default [] (g !! j)))
       (replicate n ConsumerAgent.setup).

(** The model right after [setup] and the first [update]. *)
Definition started (g : Graph) (parameters : Parameters) (rng : Random) : Model :=
  {| p := parameters; t := 0; random := rng; n_adopters := 0;
     agents := fresh_agents g (n_agents parameters); network := g;
     recorded := [(0, 0)] |}.

(** The model after a tick in which the agents at [T] were marked and
    the generator was left as [r]. *)
Definition after_tick (T : list nat) (r : Random) (m : Model) : Model :=
  let l := mark T (agents m) in
  record (set_n_adopters (n_adopters m + count become_adopter l)
            (set_agents (commit <$> l) (set_random r (set_t (S (t m)) m)))).

(** The state of a model between two ticks. *)
Definition ready (m : Model) : Prop :=
  clean (agents m) ∧ n_adopters m = count is_adopter (agents m).

(** The adopters of [l] are adopters in [l']. *)
Definition kept (l l' : list Agent) : Prop :=
  ∀ i a, l !! i = Some a → is_adopter a = true →
         ∃ a', l' !! i = Some a' ∧ is_adopter a' = true.

(** The model after [k] ticks of a run. *)
Definition run_for (k : nat) (ws : GraphConstructor) (parameters : Parameters)
    (rng : Random) : result Model :=
  m ← sim_setup ws (new_model parameters rng); sim_steps k m.

(** What [k] ticks do to a model that is between two ticks. *)
Record progress (k : nat) (m m' : Model) : Prop := mkProgress {
  progress_ready : ready m';
  progress_p : p m' = p m;
  progress_t : t m' = t m + k;
  progress_length : length (agents m') = length (agents m);
  progress_kept : kept (agents m) (agents m');
  progress_n : n_adopters m ≤ n_adopters m';
  progress_rows : ∃ rows,
    recorded m' = recorded m ++ rows ∧
    rows.*1 = seq (S (t m)) k ∧
    Sorted le (n_adopters m :: rows.*2) ∧
    Forall (λ n, n ≤ length (agents m)) rows.*2
}.

(** Every node of the graph has a neighbour. *)
Definition no_isolated (g : Graph) (n : nat) : Prop :=
  ∀ i, i < n → ∃ nbrs, g !! i = Some nbrs ∧ nbrs ≠ [].

(** ** A generator for every agent *)

(** [step] of agent [i] when every agent draws from a generator of its
    own, [gs i], instead of the generator of the model. *)
Definition step_with (gs : nat → Random) (i : nat) (m : Model) : result Model :=
  m' ← ConsumerAgent.step i (set_random (gs i) m);
  Ok (set_random (random m) m').

(** The flags at the end of a sweep of [step] in the given order. *)
Definition flags_after (order : list nat) (m : Model) : result (list bool) :=
  m' ← for_each ConsumerAgent.step order m;
  Ok (become_adopter <$> agents m').

(** ** Parameters *)

(** The parameters [prm] with the seed [s], or without a seed. *)
Definition with_seed (s : option Z) (prm : Parameters) : Parameters :=
  {| seed := s; steps := steps prm; n_agents := n_agents prm;
     n_neighbors := n_neighbors prm;
     network_randomness := network_randomness prm |}.

(** ** Models and generators of the examples *)

(** The ring on [n] nodes in which node [i] is linked to the [k / 2]
    next and the [k / 2] previous nodes (without loops and without
    repeated edges). *)
Definition ring (n k : nat) : Graph :=
  (λ i, filter (λ j, j ≠ i)
          (remove_dups
             (flat_map (λ j, [(i + j) mod n; (i + n - j mod n) mod n])
                       (seq 1 (k / 2)))))
    <$> seq 0 n.

(** A graph constructor that accepts every argument. *)
Definition ring_graph : GraphConstructor := λ n k _, Ok (ring n k).

(** A generator whose samples are given by [f] and whose choices are
    always the first element. *)
Definition scripted (f : nat → Q) : Random :=
  {| calls := 0; floats := f; picks := λ _, 0; history := [] |}.

(** The first sample is [0], every later one is [1/2]. *)
Definition low_then_high : Random :=
  scripted (λ k, match k with O => 0%Q | S _ => (1 # 2)%Q end).

(** Every sample is [0]. *)
Definition always_low : Random := scripted (λ _, 0%Q).

(** [steps = k], [n_agents = n], [n_neighbors = nb]. *)
Definition small_parameters (s : option Z) (k n nb : nat) : Parameters :=
  {| seed := s; steps := k; n_agents := n; n_neighbors := nb;
     network_randomness := 0 |}.

(** The samples of the calls 1 and 2 are [1/2], every other sample is
    [0]. *)
Definition low_but_two : Random :=
  scripted (λ k, match k with
                 | 1 | 2 => (1 # 2)%Q
                 | _ => 0%Q
                 end).

(** The model after the first tick of a run on the ring of three
    agents with the generator [low_but_two]: agent 0 is an adopter, its
    neighbours 1 and 2 are not. *)
Definition one_adopter : Model :=
  match run_for 1 ring_graph (small_parameters (Some 1%Z) 2 3 2) low_but_two with
  | Ok m => m
  | Raise _ => new_model (small_parameters (Some 1%Z) 2 3 2) low_but_two
  end.

(** The model after the first tick of a run on the ring of three
    agents in which every sample is 0: the three agents are adopters. *)
Definition three_adopters : Model :=
  match run_for 1 ring_graph (small_parameters (Some 1%Z) 2 3 2) always_low with
  | Ok m => m
  | Raise _ => new_model (small_parameters (Some 1%Z) 2 3 2) always_low
  end.

(** The model at the end of phase 1 of the first tick of a run on the
    ring of three agents in which every sample is 0: the three agents
    are flagged, and the commit is still to come. *)
Definition three_flagged : Model :=
  let m := started (ring 3 2) (small_parameters (Some 1%Z) 2 3 2) always_low in
  match MarketModel.step (set_t (S (t m)) m) with
  | Ok m1 => m1
  | Raise _ => m
  end.

(** The model after the first tick of a run on three agents without
    links in which every sample is 0: the three agents are adopters. *)
Definition three_isolated : Model :=
  match run_for 1 ring_graph (small_parameters None 2 3 1) always_low with
  | Ok m => m
  | Raise _ => new_model (small_parameters None 2 3 1) always_low
  end.

(** ** Further vocabulary *)

(** The attributes of an agent that [setup] and [get_neighbors] give
    it. *)
Definition attributes (a : Agent) : Q * Q * Z * list nat :=
  (ad_effectiveness a, adoption_fraction a, contact_rate a, neighbors a).

(** Agent [j] has its turn in the sweep over [order], or is a
    neighbour of an adopter that has. *)
Definition reached (order : list nat) (l : list Agent) (j : nat) : Prop :=
  j ∈ order ∨
  ∃ s a, s ∈ order ∧ l !! s = Some a ∧ is_adopter a = true ∧ j ∈ neighbors a.

(** [agents.update()] followed by [record], the agents being visited
    in the given order. *)
Definition update_in (order : list nat) (m : Model) : Model :=
  record (foldl (λ m i, ConsumerAgent.update i m) m order).

(** The call was the choice of a partner. *)
Definition is_choice (d : draw) : bool :=
  match d with Chosen _ => true | Sampled _ => false end.

(** The sample is below the probability 0.01 that [setup] gives to
    every agent. *)
Definition succeeds (x : Q) : bool := Qltb x (1 # 100).

(** The number of samples of the history that are below 0.01. *)
Fixpoint successes (h : list draw) : nat :=
  match h with
  | [] => 0
  | Chosen _ :: h => successes h
  | Sampled x :: h => (if succeeds x then 1 else 0) + successes h
  end.

(** No sample of the generator is below 0.01. *)
Definition quiet (r : Random) : Prop := ∀ k, succeeds (floats r k) = false.

(** Every sample of the generator is below 0.01. *)
Definition eager (r : Random) : Prop := ∀ k, succeeds (floats r k) = true.

(** Every sample is [1/2]. *)
Definition always_high : Random := scripted (λ _, (1 # 2)%Q).

(** Every agent of the store has the probabilities 0.01 that [setup]
    gives. *)
Definition thresholds (l : list Agent) : Prop :=
  Forall (λ a, ad_effectiveness a = 1 # 100 ∧ adoption_fraction a = 1 # 100) l.

(** Every agent of the store has the [contact_rate] 1 that [setup]
    gives. *)
Definition unit_rates (l : list Agent) : Prop :=
  Forall (λ a, contact_rate a = 1%Z) l.

(** * Lemmas *)

(** ** The store *)

Lemma lookup_mark T l j :
  mark T l !! j =
  (λ a, if bool_decide (j ∈ T) then with_become_adopter true a else a) <$> l !! j.
Proof. unfold mark. by rewrite list_lookup_imap. Qed.

Lemma length_mark T l : length (mark T l) = length l.
Proof. unfold mark. by rewrite length_imap. Qed.

Lemma mark_nil l : mark [] l = l.
Proof.
  apply list_eq; intros j. rewrite lookup_mark.
  by destruct (l !! j).
Qed.

Lemma with_flag_twice b c a :
  with_become_adopter b (with_become_adopter c a) = with_become_adopter b a.
Proof. by destruct a. Qed.

Lemma mark_mark T1 T2 l : mark T1 (mark T2 l) = mark (T2 ++ T1) l.
Proof.
  apply list_eq; intros j. rewrite !lookup_mark.
  destruct (l !! j) as [a|]; [|done]. cbn [fmap option_fmap option_map]. f_equal.
  repeat case_bool_decide; rewrite ?with_flag_twice; try done; set_solver.
Qed.

Lemma mark_ext T1 T2 l : (∀ j, j ∈ T1 ↔ j ∈ T2) → mark T1 l = mark T2 l.
Proof.
  intros H. apply list_eq; intros j. rewrite !lookup_mark.
  by rewrite (bool_decide_ext _ _ (H j)).
Qed.

Lemma mark_comm T1 T2 l : mark T1 (mark T2 l) = mark T2 (mark T1 l).
Proof. rewrite !mark_mark. apply mark_ext. set_solver. Qed.

Lemma alter_mark i l : alter (with_become_adopter true) i l = mark [i] l.
Proof.
  apply list_eq; intros j. rewrite lookup_mark.
  destruct (decide (i = j)) as [->|Hne].
  - rewrite list_lookup_alter_eq. by rewrite bool_decide_eq_true_2 by set_solver.
  - rewrite list_lookup_alter_ne by done.
    rewrite bool_decide_eq_false_2 by set_solver. by destruct (l !! j).
Qed.

Lemma static_mark T l : static (mark T l) = static l.
Proof.
  apply list_eq; intros j. unfold static.
  rewrite !list_lookup_fmap, lookup_mark.
  destruct (l !! j) as [a|]; simpl; [|done].
  by destruct (bool_decide _); rewrite ?with_flag_twice.
Qed.

Lemma static_lookup l1 l2 j :
  static l1 = static l2 →
  with_become_adopter false <$> l1 !! j = with_become_adopter false <$> l2 !! j.
Proof. unfold static. intros H. by rewrite <- !list_lookup_fmap, H. Qed.

Lemma put_put l1 r1 l2 r2 m : put l1 r1 (put l2 r2 m) = put l1 r1 m.
Proof. done. Qed.

Lemma put_id m : put (agents m) (random m) m = m.
Proof. by destruct m. Qed.

Lemma put_set_random l r r1 m : put l r (set_random r1 m) = put l r m.
Proof. done. Qed.

Lemma agents_put l r m : agents (put l r m) = l.
Proof. done. Qed.

Lemma random_put l r m : random (put l r m) = r.
Proof. done. Qed.

Create Rewrite HintDb model.
#[global] Hint Rewrite put_put put_set_random agents_put random_put : model.

(** ** The steps of an agent *)

Lemma adopt_put self q m :
  ConsumerAgent.adopt self q m =
  let '(x, r) := rng_random (random m) in
  put (mark (if Qltb x q then [self] else []) (agents m)) r m.
Proof.
  unfold ConsumerAgent.adopt, put. cbn.
  destruct (Qltb _ _).
  - by rewrite alter_mark.
  - rewrite mark_nil. by destruct m.
Qed.

#[local] Arguments ConsumerAgent.adopt : simpl never.
#[local] Arguments put : simpl never.
#[local] Arguments sim_step : simpl never.
#[local] Arguments MarketModel.update : simpl never.
#[local] Arguments MarketModel.setup : simpl never.
#[local] Arguments mark : simpl never.

Lemma rng_choice_Ok {A} r (l : list A) x r' :
  rng_choice r l = Ok (x, r') →
  let k := picks r (calls r) mod length l in
  l !! k = Some x ∧ r' = advance r (Chosen k).
Proof.
  unfold rng_choice. destruct l as [|d l0] eqn:El; [done|]. rewrite <- El.
  intros [= <- <-]. cbn zeta. split; [|done].
  assert (picks r (calls r) mod length l < length l) as Hlt.
  { apply Nat.mod_upper_bound. rewrite El. cbn. lia. }
  destruct (lookup_lt_is_Some_2 _ _ Hlt) as [y Hy].
  by rewrite (nth_lookup_Some _ _ _ _ Hy).
Qed.

Lemma rng_choice_nil {A} r : rng_choice r (@nil A) = Raise IndexError.
Proof. done. Qed.

Lemma rng_choice_cons {A} r (l : list A) :
  l ≠ [] → ∃ x r', rng_choice r l = Ok (x, r').
Proof. destruct l; [done|]. cbn. eauto. Qed.

Lemma rng_choice_Raise {A} r (l : list A) e :
  rng_choice r l = Raise e → e = IndexError ∧ l = [].
Proof. destruct l; [|done]. by intros [= <-]. Qed.

(** The sequence of the values of an attribute is as long as the
    sequence of the agents. *)
Lemma truth_fmap {A B} (f : A → B) (l : list A) : truth (f <$> l) = truth l.
Proof. by destruct l. Qed.

(** One turn of the loop draws a partner and does nothing else: the
    sequence [partner.is_adopter] has one element, so it is true, the
    test [not partner.is_adopter] fails, and [partner.adopt] is not
    called. *)
Lemma contact_choice self a m :
  agents m !! self = Some a →
  ConsumerAgent.contact self m =
  '(_, r) ← rng_choice (random m) (neighbors a); Ok (set_random r m).
Proof.
  intros Ha. unfold ConsumerAgent.contact, AgentList_random. rewrite Ha.
  by destruct (rng_choice (random m) (neighbors a)) as [[j r]|e].
Qed.

(** The loop of [step] draws [n] partners. *)
Lemma contacts_choices n self a m :
  agents m !! self = Some a →
  ConsumerAgent.contacts n self m =
  r ← choices n (neighbors a) (random m); Ok (set_random r m).
Proof.
  revert m. induction n as [|n IH]; intros m Ha.
  { cbn. by destruct m. }
  cbn. rewrite (contact_choice _ a) by done.
  destruct (rng_choice (random m) (neighbors a)) as [[j r1]|e]; [|done]. cbn.
  rewrite (IH (set_random r1 m)) by done. cbn.
  by destruct (choices n (neighbors a) r1).
Qed.

(** [step] in terms of its outcome. *)
Lemma step_outcome self m :
  ConsumerAgent.step self m =
  '(T, r) ← outcome self (agents m) (random m);
  Ok (put (mark T (agents m)) r m).
Proof.
  unfold ConsumerAgent.step, outcome.
  destruct (agents m !! self) as [a|] eqn:Ha.
  - destruct (is_adopter a).
    + rewrite (contacts_choices _ _ a) by done.
      destruct (choices _ _ _) as [r|e]; [|done]. cbn.
      rewrite mark_nil. by destruct m.
    + rewrite adopt_put. by cbn.
  - cbn. by rewrite mark_nil, put_id.
Qed.

(** ** The draws of the loop *)

Lemma choices_Ok n nbrs r r' :
  choices n nbrs r = Ok r' → r' = chosen n (length nbrs) r.
Proof.
  revert r. induction n as [|n IH]; intros r; cbn.
  { intros [= <-]. unfold chosen. destruct r; cbn. f_equal; [lia|].
    by rewrite app_nil_r. }
  destruct (rng_choice r nbrs) as [[j r1]|e] eqn:Hc; [|done]. cbn.
  apply rng_choice_Ok in Hc as [_ ->]. intros H. apply IH in H as ->.
  unfold chosen. cbn. f_equal; [lia|]. rewrite <- app_assoc. f_equal. cbn.
  rewrite Nat.add_0_r. f_equal.
  rewrite <- fmap_S_seq, <- list_fmap_compose. apply list_fmap_ext.
  intros _ i _. cbn. do 3 f_equal. lia.
Qed.

Lemma choices_total n nbrs r : nbrs ≠ [] → ∃ r', choices n nbrs r = Ok r'.
Proof.
  intros Hne. revert r. induction n as [|n IH]; intros r; cbn; [eauto|].
  destruct (rng_choice_cons r nbrs Hne) as (j & r1 & ->). cbn. apply IH.
Qed.

Lemma choices_nil n r :
  choices n [] r = match n with O => Ok r | S _ => Raise IndexError end.
Proof. by destruct n. Qed.

Lemma choices_Raise n nbrs r e :
  choices n nbrs r = Raise e → e = IndexError ∧ nbrs = [] ∧ 0 < n.
Proof.
  intros H. destruct nbrs as [|j0 nbrs].
  - destruct n; [done|]. cbn in H. injection H as <-. repeat split. lia.
  - destruct (choices_total n (j0 :: nbrs) r) as (? & Hok); [done|]. congruence.
Qed.

(** The calls of [chosen] are choices; no sample is drawn. *)
Lemma history_chosen n len r :
  ∃ h, history (chosen n len r) = history r ++ h ∧
       length h = n ∧
       forallb is_choice h = true ∧
       successes h = 0.
Proof.
  eexists. split; [done|]. rewrite length_fmap, length_seq. split; [done|].
  generalize (seq 0 n). intros l. induction l as [|i l [IH1 IH2]]; [done|].
  by cbn.
Qed.

(** The outcome depends on the store through its static part only. *)
Lemma outcome_static self l1 l2 r :
  static l1 = static l2 → outcome self l1 r = outcome self l2 r.
Proof.
  intros Hs. unfold outcome.
  pose proof (static_lookup _ _ self Hs) as Hj.
  destruct (l1 !! self) as [a1|], (l2 !! self) as [a2|]; try done; cbn in Hj.
  assert (is_adopter a1 = is_adopter a2 ∧ contact_rate a1 = contact_rate a2 ∧
          neighbors a1 = neighbors a2 ∧ ad_effectiveness a1 = ad_effectiveness a2)
    as (-> & -> & -> & ->); [|done].
  injection Hj. by destruct a1, a2; cbn; intros; subst.
Qed.

Lemma outcome_waiting self l r T r' :
  outcome self l r = Ok (T, r') → Forall (waiting l) T.
Proof.
  unfold outcome. destruct (l !! self) as [a|] eqn:Ha.
  - destruct (is_adopter a) eqn:Had.
    + destruct (choices _ _ _) as [r1|e]; [|done]. intros [= <- <-]. constructor.
    + intros [= <- <-]. destruct (Qltb _ _); [|constructor].
      constructor; [|constructor]. by exists a.
  - intros [= <- <-]. constructor.
Qed.

Lemma outcome_Raise self l r e : outcome self l r = Raise e → e = IndexError.
Proof.
  unfold outcome. destruct (l !! self) as [a|]; [|done].
  destruct (is_adopter a); [|done].
  destruct (choices _ _ _) as [r1|e1] eqn:Hc; [done|].
  intros [= <-]. by apply choices_Raise in Hc as [-> _].
Qed.

(** ** A sweep of [step] over a list of agents *)

Lemma waiting_mark T l j : waiting (mark T l) j ↔ waiting l j.
Proof.
  unfold waiting. rewrite lookup_mark. split.
  - intros (a' & Ha' & Had). destruct (l !! j) as [a|]; [|done].
    exists a. split; [done|]. cbn in Ha'. injection Ha' as <-.
    by destruct (bool_decide _).
  - intros (a & -> & Had). cbn. destruct (bool_decide _); eauto.
Qed.

Lemma for_each_step_Ok order m m' :
  for_each ConsumerAgent.step order m = Ok m' →
  ∃ T, m' = put (mark T (agents m)) (random m') m ∧
       Forall (waiting (agents m)) T.
Proof.
  revert m. induction order as [|i order IH]; intros m; cbn.
  { intros [= <-]. exists []. rewrite mark_nil, put_id. by split. }
  rewrite step_outcome.
  destruct (outcome i _ _) as [[T1 r1]|e] eqn:Hout; [|done]. cbn.
  intros Hrest. apply outcome_waiting in Hout.
  apply IH in Hrest as (T2 & -> & HT2). autorewrite with model in *.
  exists (T1 ++ T2). rewrite mark_mark. split; [done|].
  apply Forall_app. split; [done|].
  eapply Forall_impl; [exact HT2|]. intros j. by rewrite waiting_mark.
Qed.

Lemma for_each_step_Raise order m e :
  for_each ConsumerAgent.step order m = Raise e → e = IndexError.
Proof.
  revert m. induction order as [|i order IH]; intros m; cbn; [done|].
  rewrite step_outcome.
  destruct (outcome i _ _) as [[T1 r1]|e1] eqn:Hout; cbn.
  - apply IH.
  - intros [= <-]. by apply outcome_Raise in Hout.
Qed.

Lemma connected_mark T l : connected l → connected (mark T l).
Proof.
  unfold connected. rewrite !Forall_lookup. intros H j a'.
  rewrite lookup_mark. destruct (l !! j) as [a|] eqn:Ha; [|done].
  cbn. intros [= <-]. specialize (H j a Ha). by destruct (bool_decide _).
Qed.

Lemma outcome_total self l r :
  connected l → ∃ T r', outcome self l r = Ok (T, r').
Proof.
  intros Hc. unfold outcome. destruct (l !! self) as [a|] eqn:Ha; [|eauto].
  destruct (is_adopter a); [|cbn; eauto].
  destruct (choices_total (Z.to_nat (contact_rate a)) (neighbors a) r)
    as (r' & ->); [|cbn; eauto].
  by apply (proj1 (Forall_lookup _ _) Hc self a).
Qed.

Lemma for_each_step_total order m :
  connected (agents m) → ∃ m', for_each ConsumerAgent.step order m = Ok m'.
Proof.
  revert m. induction order as [|i order IH]; intros m Hc; cbn; [eauto|].
  rewrite step_outcome.
  destruct (outcome_total i (agents m) (random m) Hc) as (T & r' & ->). cbn.
  apply IH. autorewrite with model. by apply connected_mark.
Qed.

(** ** Calls on every agent of the list *)

Lemma foldl_alter_seq (F : nat → Agent → Agent) (l : list Agent) n j :
  foldl (λ (l : list Agent) i, alter (F i) i l) l (seq 0 n) !! j =
  if decide (j < n) then F j <$> l !! j else l !! j.
Proof.
  induction n as [|n IH]; [done|].
  rewrite seq_S, foldl_app. cbn.
  destruct (decide (n = j)) as [->|Hne].
  - rewrite list_lookup_alter_eq, IH.
    rewrite decide_False by lia. by rewrite decide_True by lia.
  - rewrite list_lookup_alter_ne, IH by done.
    destruct (decide (j < n)).
    + by rewrite decide_True by lia.
    + by rewrite decide_False by lia.
Qed.

Lemma foldl_alter_all (F : nat → Agent → Agent) (l : list Agent) :
  foldl (λ (l : list Agent) i, alter (F i) i l) l (seq 0 (length l)) = imap F l.
Proof.
  apply list_eq; intros j. rewrite foldl_alter_seq, list_lookup_imap.
  destruct (decide (j < length l)) as [|Hge]; [done|].
  by rewrite lookup_ge_None_2 by lia.
Qed.

(** *** [agents.update()] *)

Lemma count_app f l1 l2 : count f (l1 ++ l2) = count f l1 + count f l2.
Proof. induction l1 as [|a l1 IH]; cbn; [done|]. rewrite IH. lia. Qed.

Lemma count_le f l : count f l ≤ length l.
Proof. induction l as [|a l IH]; cbn; [lia|]. destruct (f a); lia. Qed.

Lemma count_fmap_eq f l1 l2 : f <$> l1 = f <$> l2 → count f l1 = count f l2.
Proof.
  revert l2. induction l1 as [|a1 l1 IH]; intros [|a2 l2]; try done.
  cbn. intros [= -> H]. by rewrite (IH l2).
Qed.

Lemma count_take_S f l n :
  n < length l →
  count f (take (S n) l) =
  count f (take n l) + match l !! n with Some a => if f a then 1 else 0 | None => 0 end.
Proof.
  intros Hn. destruct (lookup_lt_is_Some_2 _ _ Hn) as [a Ha].
  rewrite (take_S_r _ _ _ Ha), count_app, Ha. cbn. lia.
Qed.

Lemma alter_commit i l :
  alter commit i l =
  if flagged l i
  then alter (λ a, with_become_adopter false (with_is_adopter true a)) i l
  else l.
Proof.
  unfold flagged. destruct (l !! i) as [a|] eqn:Ha.
  - destruct (become_adopter a) eqn:Hb.
    + apply list_alter_ext; [|done]. intros a' Ha'.
      assert (a' = a) as -> by congruence. unfold commit. by rewrite Hb.
    + apply list_eq; intros j. destruct (decide (i = j)) as [->|].
      * rewrite list_lookup_alter_eq, Ha. cbn. unfold commit. by rewrite Hb.
      * by rewrite list_lookup_alter_ne.
  - apply list_eq; intros j. destruct (decide (i = j)) as [->|].
    + by rewrite list_lookup_alter_eq, Ha.
    + by rewrite list_lookup_alter_ne.
Qed.

Lemma agent_update_eq i m :
  ConsumerAgent.update i m =
  set_n_adopters (n_adopters m + (if flagged (agents m) i then 1 else 0))
    (set_agents (alter commit i (agents m)) m).
Proof.
  unfold ConsumerAgent.update. rewrite alter_commit. unfold flagged.
  destruct (agents m !! i) as [a|].
  - destruct (become_adopter a).
    + unfold set_n_adopters, set_agents. cbn. f_equal. lia.
    + destruct m; unfold set_n_adopters, set_agents; cbn. f_equal. lia.
  - destruct m; unfold set_n_adopters, set_agents; cbn. f_equal. lia.
Qed.

Lemma agents_update_prefix n m :
  n ≤ length (agents m) →
  foldl (λ m i, ConsumerAgent.update i m) m (seq 0 n) =
  set_n_adopters (n_adopters m + count become_adopter (take n (agents m)))
    (set_agents (foldl (λ (l : list Agent) i, alter commit i l) (agents m) (seq 0 n)) m).
Proof.
  induction n as [|n IH]; intros Hn.
  { rewrite take_0. destruct m; unfold set_n_adopters, set_agents; cbn.
    f_equal. lia. }
  rewrite !seq_S, !foldl_app, IH by lia. cbn [foldl plus].
  rewrite agent_update_eq. cbn.
  rewrite count_take_S by lia. unfold flagged.
  rewrite (foldl_alter_seq (λ _, commit)), decide_False by lia.
  unfold set_n_adopters, set_agents; cbn. f_equal.
  destruct (agents m !! n) as [a|]; [destruct (become_adopter a)|]; lia.
Qed.

(** [MarketModel.update] in closed form. *)
Lemma model_update_eq m :
  MarketModel.update m =
  record (set_n_adopters (n_adopters m + count become_adopter (agents m))
            (set_agents (commit <$> agents m) m)).
Proof.
  unfold MarketModel.update, agent_ids.
  rewrite agents_update_prefix by done.
  rewrite (foldl_alter_all (λ _, commit)), firstn_all.
  by rewrite (imap_const commit).
Qed.

(** *** [MarketModel.setup] *)

Lemma get_neighbors_fold ids m :
  foldl (λ m i, ConsumerAgent.get_neighbors i m) m ids =
  set_agents
    (foldl (λ (l : list Agent) i,
              alter (with_neighbors (default [] (network m !! i))) i l)
           (agents m) ids) m.
Proof.
  revert m. induction ids as [|i ids IH]; intros m; cbn.
  - by destruct m.
  - by rewrite IH.
Qed.

(** [MarketModel.setup] in closed form. *)
Lemma model_setup_eq ws m :
  MarketModel.setup ws m =
  g ← ws (n_agents (p m)) (n_neighbors (p m)) (network_randomness (p m));
  Ok (set_agents (fresh_agents g (n_agents (p m)))
        (set_network g (set_n_adopters 0 m))).
Proof.
  unfold MarketModel.setup.
  destruct (ws _ _ _) as [g|e]; [|done]. cbn. f_equal.
  rewrite get_neighbors_fold. unfold agent_ids. cbn.
  by rewrite (foldl_alter_all (λ j, with_neighbors (default [] (g !! j)))).
Qed.

Lemma lookup_fresh_agents g n j :
  fresh_agents g n !! j =
  if decide (j < n)
  then Some (with_neighbors (default [] (g !! j)) ConsumerAgent.setup)
  else None.
Proof.
  unfold fresh_agents. rewrite list_lookup_imap.
  destruct (decide (j < n)).
  - by rewrite lookup_replicate_2.
  - by rewrite (proj1 (lookup_replicate_None _ _ _)) by lia.
Qed.

Lemma length_fresh_agents g n : length (fresh_agents g n) = n.
Proof. unfold fresh_agents. by rewrite length_imap, length_replicate. Qed.

(** ** Invariants of a run *)

Lemma fresh_agents_new g n :
  Forall (λ a, is_adopter a = false ∧ become_adopter a = false ∧
               contact_rate a = 1%Z)
         (fresh_agents g n).
Proof.
  apply Forall_lookup. intros j a. rewrite lookup_fresh_agents.
  destruct (decide _); [|done]. by intros [= <-].
Qed.

Lemma clean_fresh g n : clean (fresh_agents g n).
Proof. eapply Forall_impl; [apply fresh_agents_new|]. by intros a (_ & ? & _). Qed.

Lemma count_fresh g n : count is_adopter (fresh_agents g n) = 0.
Proof.
  pose proof (fresh_agents_new g n) as H.
  induction H as [|a l (Ha & _) _ IH]; cbn; [done|]. by rewrite Ha, IH.
Qed.

Lemma clean_count l : clean l → count become_adopter l = 0.
Proof. induction 1 as [|a l Ha _ IH]; cbn; [done|]. by rewrite Ha, IH. Qed.

Lemma clean_commit_id l : clean l → commit <$> l = l.
Proof.
  induction 1 as [|a l Ha _ IH]; cbn; [done|].
  rewrite IH. unfold commit. by rewrite Ha.
Qed.

Lemma clean_commit l : clean (commit <$> l).
Proof.
  apply Forall_fmap, Forall_forall. intros a _. cbn. unfold commit.
  by destruct (become_adopter a) eqn:E.
Qed.

Lemma clean_sound l : clean l → sound l.
Proof.
  intros H. eapply Forall_impl; [exact H|]. intros a Ha. cbn. by rewrite Ha.
Qed.

Lemma sound_mark T l : clean l → Forall (waiting l) T → sound (mark T l).
Proof.
  intros Hc HT. apply Forall_lookup. intros j a'. rewrite lookup_mark.
  destruct (l !! j) as [a|] eqn:Ha; [|done]. cbn. intros [= <-].
  case_bool_decide as Hj.
  - intros _. cbn.
    destruct (proj1 (Forall_forall _ _) HT j Hj) as (a0 & Ha0 & Had).
    congruence.
  - by rewrite (proj1 (Forall_lookup _ _) Hc j a Ha).
Qed.

Lemma is_adopter_mark T l : is_adopter <$> mark T l = is_adopter <$> l.
Proof.
  apply list_eq; intros j. rewrite !list_lookup_fmap, lookup_mark.
  destruct (l !! j) as [a|]; [|done]. cbn. by destruct (bool_decide _).
Qed.

Lemma count_commit l :
  sound l →
  count is_adopter (commit <$> l) = count is_adopter l + count become_adopter l.
Proof.
  induction 1 as [|a l Ha _ IH]; cbn; [done|]. rewrite IH. unfold commit.
  destruct (become_adopter a) eqn:Hb; cbn.
  - rewrite Ha by done. lia.
  - destruct (is_adopter a); lia.
Qed.

Lemma transitions_commit l :
  sound l → transitions l (commit <$> l) = count become_adopter l.
Proof.
  induction 1 as [|a l Ha _ IH]; cbn; [done|]. rewrite IH. unfold commit.
  destruct (become_adopter a) eqn:Hb; cbn.
  - by rewrite Ha.
  - by destruct (is_adopter a).
Qed.

Lemma is_adopter_commit a :
  is_adopter (commit a) = is_adopter a || become_adopter a.
Proof.
  unfold commit. destruct (become_adopter a); cbn; [|by rewrite orb_false_r].
  by rewrite orb_true_r.
Qed.

Lemma connected_commit l : connected l → connected (commit <$> l).
Proof.
  intros H. apply Forall_fmap. eapply Forall_impl; [exact H|].
  intros a Ha. cbn. unfold commit. by destruct (become_adopter a).
Qed.

(** ** One tick *)

Lemma sim_step_Ok m m' :
  sim_step m = Ok m' →
  ∃ T r, Forall (waiting (agents m)) T ∧ m' = after_tick T r m.
Proof.
  unfold sim_step, MarketModel.step.
  destruct (for_each _ _ _) as [m1|e] eqn:Hsweep; [|done]. cbn.
  intros [= <-]. apply for_each_step_Ok in Hsweep as (T & -> & HT).
  exists T, (random m1). split; [done|]. by rewrite model_update_eq.
Qed.

Lemma sim_step_total m : connected (agents m) → ∃ m', sim_step m = Ok m'.
Proof.
  intros Hc. unfold sim_step, MarketModel.step.
  destruct (for_each_step_total (agent_ids (set_t (S (t m)) m))
              (set_t (S (t m)) m) Hc) as [m1 ->].
  cbn. eauto.
Qed.

Lemma sim_step_Raise m e : sim_step m = Raise e → e = IndexError.
Proof.
  unfold sim_step, MarketModel.step.
  destruct (for_each _ _ _) as [m1|e1] eqn:Hsweep; [done|]. cbn.
  intros [= <-]. by apply for_each_step_Raise in Hsweep.
Qed.

Lemma kept_refl l : kept l l.
Proof. intros i a. eauto. Qed.

Lemma kept_trans l1 l2 l3 : kept l1 l2 → kept l2 l3 → kept l1 l3.
Proof.
  intros H12 H23 i a Ha Had.
  destruct (H12 i a Ha Had) as (a' & Ha' & Had'). eauto.
Qed.

Lemma kept_tick T l : kept l (commit <$> mark T l).
Proof.
  intros i a Ha Had. rewrite list_lookup_fmap, lookup_mark, Ha. cbn.
  eexists. split; [done|]. rewrite is_adopter_commit.
  destruct (bool_decide _); cbn; by rewrite Had.
Qed.

Lemma after_tick_ready T r m :
  ready m → Forall (waiting (agents m)) T →
  ready (after_tick T r m) ∧
  n_adopters m ≤ n_adopters (after_tick T r m) ∧
  n_adopters (after_tick T r m) ≤ length (agents m).
Proof.
  intros [Hc Hn] HT. pose proof (sound_mark T _ Hc HT) as Hs.
  assert (n_adopters (after_tick T r m) =
          count is_adopter (agents (after_tick T r m))) as Heq.
  { cbn. rewrite count_commit by done.
    by rewrite (count_fmap_eq is_adopter _ _ (is_adopter_mark T _)), Hn. }
  repeat split.
  - apply clean_commit.
  - done.
  - cbn. lia.
  - rewrite Heq. etrans; [apply count_le|].
    cbn. by rewrite length_fmap, length_mark.
Qed.

(** ** A run *)

Lemma run_run_for ws parameters rng :
  run ws parameters rng = run_for (steps parameters) ws parameters rng.
Proof. done. Qed.

Lemma sim_steps_add j d m :
  sim_steps (j + d) m = m' ← sim_steps j m; sim_steps d m'.
Proof.
  revert m. induction j as [|j IH]; intros m; cbn; [done|].
  destruct (sim_step m) as [m1|e]; [|done]. cbn. apply IH.
Qed.

Lemma sim_setup_eq ws parameters rng :
  sim_setup ws (new_model parameters rng) =
  g ← ws (n_agents parameters) (n_neighbors parameters)
         (network_randomness parameters);
  Ok (started g parameters rng).
Proof.
  unfold sim_setup. rewrite model_setup_eq. cbn.
  destruct (ws _ _ _) as [g|e]; [|done]. cbn. f_equal.
  rewrite model_update_eq. cbn.
  rewrite clean_count, clean_commit_id by apply clean_fresh. done.
Qed.

Lemma started_ready g parameters rng : ready (started g parameters rng).
Proof. split; cbn; [apply clean_fresh|by rewrite count_fresh]. Qed.

Lemma sim_steps_progress k m m' :
  ready m → sim_steps k m = Ok m' → progress k m m'.
Proof.
  revert m. induction k as [|k IH]; intros m Hr; cbn.
  { intros [= <-]. split; try done; [apply kept_refl|].
    exists []. rewrite app_nil_r. repeat split; by constructor. }
  destruct (sim_step m) as [m1|e] eqn:Hstep; [|done]. cbn. intros Hrest.
  apply sim_step_Ok in Hstep as (T & r & HT & ->).
  destruct (after_tick_ready T r m Hr HT) as (Hr1 & Hle & Hbound).
  destruct (IH _ Hr1 Hrest) as [? ? ? ? ? ? (rows & Hrec & Hts & Hsorted & Hall)].
  cbn in *. rewrite length_fmap, length_mark in *.
  split; try done; [lia|eapply kept_trans; [apply kept_tick|done]|lia|].
  exists ((S (t m), n_adopters m + count become_adopter (mark T (agents m))) :: rows).
  rewrite Hrec, <- app_assoc. cbn. repeat split.
  - by rewrite Hts.
  - constructor; [done|]. constructor. lia.
  - constructor; [lia|done].
Qed.

Lemma sim_steps_total k m :
  ready m → connected (agents m) → ∃ m', sim_steps k m = Ok m'.
Proof.
  revert m. induction k as [|k IH]; intros m Hr Hc; cbn; [eauto|].
  destruct (sim_step_total m Hc) as [m1 Hstep]. rewrite Hstep. cbn.
  apply sim_step_Ok in Hstep as (T & r & HT & ->).
  apply IH.
  - by apply after_tick_ready.
  - cbn. by apply connected_commit, connected_mark.
Qed.

Lemma connected_fresh g n : no_isolated g n → connected (fresh_agents g n).
Proof.
  intros H. apply Forall_lookup. intros j a. rewrite lookup_fresh_agents.
  destruct (decide _) as [Hj|]; [|done]. intros [= <-]. cbn.
  by destruct (H j Hj) as (nbrs & -> & ?).
Qed.

(** * Properties of the model *)

(** ** Order of the agents in phase 1 *)

Lemma step_with_outcome gs i m :
  step_with gs i m =
  '(T, _) ← outcome i (agents m) (gs i); Ok (set_agents (mark T (agents m)) m).
Proof.
  unfold step_with. rewrite step_outcome. cbn.
  destruct (outcome i _ _) as [[T r]|e]; [|done]. by destruct m.
Qed.

Lemma step_with_comm gs i j m :
  (m' ← step_with gs i m; step_with gs j m') =
  (m' ← step_with gs j m; step_with gs i m').
Proof.
  rewrite !step_with_outcome.
  destruct (outcome i (agents m) (gs i)) as [[Ti ri]|ei] eqn:Hi,
           (outcome j (agents m) (gs j)) as [[Tj rj]|ej] eqn:Hj; cbn;
    rewrite ?step_with_outcome; cbn;
    rewrite ?(outcome_static _ (mark _ (agents m)) (agents m)) by apply static_mark;
    rewrite ?Hi, ?Hj; cbn.
  - unfold set_agents; cbn. by rewrite mark_comm.
  - done.
  - done.
  - apply outcome_Raise in Hi, Hj. by subst.
Qed.

Lemma for_each_perm (f : nat → Model → result Model) l1 l2 :
  (∀ i j m, (m' ← f i m; f j m') = (m' ← f j m; f i m')) →
  l1 ≡ₚ l2 → ∀ m, for_each f l1 m = for_each f l2 m.
Proof.
  intros Hf. induction 1 as [|i l1 l2 _ IH|i j l|l1 l2 l3 _ IH1 _ IH2]; intros m.
  - done.
  - cbn. destruct (f i m); [apply IH|done].
  - cbn. specialize (Hf j i m).
    destruct (f j m) as [mj|ej], (f i m) as [mi|ei]; cbn in *.
    + destruct (f i mj) as [mji|e1], (f j mi) as [mij|e2]; cbn; congruence.
    + by destruct (f i mj).
    + by destruct (f j mi).
    + done.
  - by rewrite IH1.
Qed.

(** C1, as the code has it.  When every agent draws from a generator of
    its own, so that an agent gets the same samples whatever the order,
    a sweep of [step] over the agents gives the same model for every
    permutation of the order: the same flags [become_adopter], or the
    same exception. *)
Theorem phase1_order_independent gs l1 l2 m :
  l1 ≡ₚ l2 → for_each (step_with gs) l1 m = for_each (step_with gs) l2 m.
Proof. intros Hperm. apply for_each_perm; [apply step_with_comm|done]. Qed.

Lemma phase1_order_independent_witness :
  let m := started (ring 3 2) (small_parameters (Some 1%Z) 1 3 2) low_then_high in
  [0; 1; 2] ≡ₚ [1; 0; 2] ∧
  for_each (step_with (λ _, low_then_high)) [0; 1; 2] m =
  for_each (step_with (λ _, low_then_high)) [1; 0; 2] m.
Proof.
  split; [apply perm_swap|].
  apply (phase1_order_independent (λ _, low_then_high) [0; 1; 2] [1; 0; 2]).
  apply perm_swap.
Defined.

(** C1 fails with the generator of the model, which hands its samples
    out in the order of the calls: on three new agents, with a first
    sample of 0 and later samples of 1/2, the agent that is visited
    first is the one that is flagged. *)
Lemma phase1_order_dependent :
  let prm := small_parameters (Some 1%Z) 1 3 2 in
  let m := started (ring 3 2) prm low_then_high in
  sim_setup ring_graph (new_model prm low_then_high) = Ok m ∧
  agent_ids m = [0; 1; 2] ∧
  [0; 1; 2] ≡ₚ [1; 0; 2] ∧
  flags_after [0; 1; 2] m = Ok [true; false; false] ∧
  flags_after [1; 0; 2] m = Ok [false; true; false].
Proof.
  cbv zeta. split; [|split; [|split; [|split]]].
  - rewrite sim_setup_eq. reflexivity.
  - reflexivity.
  - apply perm_swap.
  - vm_compute. reflexivity.
  - vm_compute. reflexivity.
Qed.

(** ** Phase 1 writes flags only *)

(** C5.  A sweep of [step] over any list of agents (the whole list for
    [MarketModel.step], a part of it for a sweep under way) leaves the
    counter [n_adopters], the clock, the recorded rows and the network
    as they were, and every agent as it was but for its flag
    [become_adopter]; in particular no [is_adopter] changes. *)
Theorem phase1_frame order m m' :
  for_each ConsumerAgent.step order m = Ok m' →
  n_adopters m' = n_adopters m ∧
  t m' = t m ∧ p m' = p m ∧ network m' = network m ∧
  recorded m' = recorded m ∧
  length (agents m') = length (agents m) ∧
  is_adopter <$> agents m' = is_adopter <$> agents m ∧
  ∀ i a, agents m !! i = Some a →
         ∃ b, agents m' !! i = Some (with_become_adopter b a).
Proof.
  intros H. apply for_each_step_Ok in H as (T & Heq & _).
  rewrite Heq. unfold put. cbn.
  rewrite length_mark, is_adopter_mark. repeat split.
  intros i a Ha. rewrite lookup_mark, Ha. cbn.
  case_bool_decide; [by exists true|].
  exists (become_adopter a). by destruct a.
Qed.

Lemma phase1_frame_witness :
  let m := started (ring 3 2) (small_parameters (Some 1%Z) 1 3 2) always_low in
  ∃ m', MarketModel.step m = Ok m' ∧
        n_adopters m' = 0 ∧
        is_adopter <$> agents m' = [false; false; false].
Proof.
  cbv zeta. eexists. split; [vm_compute; reflexivity|].
  match goal with
  | |- n_adopters ?m' = _ ∧ _ =>
    destruct (phase1_frame [0; 1; 2]
      (started (ring 3 2) (small_parameters (Some 1%Z) 1 3 2) always_low) m')
      as (Hn & _ & _ & _ & _ & _ & Had & _); [vm_compute; reflexivity|]
  end.
  split; [exact Hn|exact Had].
Defined.

(** ** The decision rule *)

(** C4, as the code has it.  An agent that is not an adopter draws one
    sample and sets its own flag when the sample is below its
    [ad_effectiveness], as the claim says.  An agent that is an adopter
    (and has a neighbour) draws [contact_rate] partners, each from the
    whole neighbour list, and that is all it does: [partner] is a
    sequence with one agent, the test [not partner.is_adopter] takes
    the truth value of a sequence with one element and fails whether
    the partner is an adopter or not, so no sample is drawn for a
    partner and no partner is flagged.  The model after the step is
    the model before it, but for the generator, which has answered
    [contact_rate] choices and nothing else. *)
Theorem decision_rule_as_coded self m a :
  agents m !! self = Some a →
  (is_adopter a = true → neighbors a ≠ []) →
  ConsumerAgent.step self m =
  Ok (if is_adopter a
      then set_random (chosen (Z.to_nat (contact_rate a))
                              (length (neighbors a)) (random m)) m
      else let x := floats (random m) (calls (random m)) in
           let m1 := set_random (advance (random m) (Sampled x)) m in
           if Qltb x (ad_effectiveness a)
           then set_agents (alter (with_become_adopter true) self (agents m)) m1
           else m1).
Proof.
  intros Ha Hnb. unfold ConsumerAgent.step. rewrite Ha.
  destruct (is_adopter a) eqn:Had; [|done].
  rewrite (contacts_choices _ _ a) by done.
  destruct (choices_total (Z.to_nat (contact_rate a)) (neighbors a) (random m))
    as (r' & Hc); [by apply Hnb|].
  rewrite Hc. cbn. by rewrite (choices_Ok _ _ _ _ Hc).
Qed.

Lemma decision_rule_as_coded_witness :
  let a := with_neighbors [1; 2] (with_is_adopter true ConsumerAgent.setup) in
  agents one_adopter !! 0 = Some a ∧
  (is_adopter a = true → neighbors a ≠ []) ∧
  is_adopter <$> agents one_adopter = [true; false; false] ∧
  succeeds (floats (random one_adopter) (S (calls (random one_adopter)))) = true ∧
  ∃ m', ConsumerAgent.step 0 one_adopter = Ok m' ∧
        become_adopter <$> agents m' = [false; false; false] ∧
        history (random m') = history (random one_adopter) ++ [Chosen 0].
Proof.
  cbv zeta. split; [vm_compute; reflexivity|]. split; [done|].
  split; [vm_compute; reflexivity|]. split; [vm_compute; reflexivity|].
  eexists. split.
  - apply (decision_rule_as_coded 0 one_adopter
             (with_neighbors [1; 2] (with_is_adopter true ConsumerAgent.setup)));
      [vm_compute; reflexivity|done].
  - split; vm_compute; reflexivity.
Defined.

(** ** An adopter without neighbours *)

(** C9, as the code has it.  For an adopter whose neighbour list is
    empty, [step] makes no contact and changes nothing when
    [contact_rate] is not positive; when it is positive, the first
    draw of a partner from the empty list raises. *)
Theorem isolated_adopter_step self m a :
  agents m !! self = Some a →
  is_adopter a = true →
  neighbors a = [] →
  ConsumerAgent.step self m =
  if (0 <? contact_rate a)%Z then Raise IndexError else Ok m.
Proof.
  intros Ha Had Hnb. rewrite step_outcome. unfold outcome.
  rewrite Ha, Had, Hnb, choices_nil.
  destruct (Z.to_nat (contact_rate a)) as [|n] eqn:Hn; cbn.
  - rewrite (proj2 (Z.ltb_ge 0 (contact_rate a))) by lia.
    by rewrite mark_nil, put_id.
  - by rewrite (proj2 (Z.ltb_lt 0 (contact_rate a))) by lia.
Qed.

Lemma isolated_adopter_step_witness :
  let a := with_is_adopter true ConsumerAgent.setup in
  agents three_isolated !! 0 = Some a ∧
  is_adopter a = true ∧
  neighbors a = [] ∧
  ConsumerAgent.step 0 three_isolated = Raise IndexError.
Proof.
  cbv zeta. split; [vm_compute; reflexivity|].
  split; [reflexivity|]. split; [reflexivity|].
  apply (isolated_adopter_step 0 three_isolated
           (with_is_adopter true ConsumerAgent.setup));
    [vm_compute; reflexivity|reflexivity|reflexivity].
Defined.

(** C9 fails: in a run on a graph without links, an agent that became
    an adopter in the first tick raises in its next [step], and the
    run with it. *)
Lemma isolated_adopter_raises :
  let prm := small_parameters None 2 3 1 in
  run_for 1 ring_graph prm always_low = Ok three_isolated ∧
  (∃ a, agents three_isolated !! 0 = Some a ∧
        is_adopter a = true ∧ neighbors a = []) ∧
  ConsumerAgent.step 0 three_isolated = Raise IndexError ∧
  run ring_graph prm always_low = Raise IndexError.
Proof.
  cbv zeta. split; [|split; [|split]].
  - vm_compute. reflexivity.
  - eexists. split; [vm_compute; reflexivity|]. by split.
  - vm_compute. reflexivity.
  - vm_compute. reflexivity.
Qed.

(** ** Monotonicity *)

(** C2.  In every run, an agent that is an adopter after [j] ticks is
    an adopter after every later tick, the counter [n_adopters] does
    not decrease, the rows recorded by then stay as they are, and the
    recorded values of [n_adopters] are non-decreasing from each row to
    the next. *)
Theorem adoption_monotone ws prm rng j d mj mk :
  run_for j ws prm rng = Ok mj →
  run_for (j + d) ws prm rng = Ok mk →
  kept (agents mj) (agents mk) ∧
  n_adopters mj ≤ n_adopters mk ∧
  recorded mj `prefix_of` recorded mk ∧
  Sorted le (recorded mk).*2.
Proof.
  unfold run_for. rewrite sim_setup_eq.
  destruct (ws _ _ _) as [g|e]; [|done]. cbn.
  rewrite sim_steps_add. intros Hj. rewrite Hj. cbn. intros Hd.
  pose proof (started_ready g prm rng) as Hr0.
  pose proof (sim_steps_progress _ _ _ Hr0 Hj) as Pj.
  pose proof (sim_steps_progress _ _ _ (progress_ready _ _ _ Pj) Hd) as Pd.
  assert (sim_steps (j + d) (started g prm rng) = Ok mk) as Hjd.
  { by rewrite sim_steps_add, Hj. }
  pose proof (sim_steps_progress _ _ _ Hr0 Hjd) as Pjd.
  repeat split.
  - by destruct Pd.
  - by destruct Pd.
  - destruct Pd as [_ _ _ _ _ _ (rows & -> & _)]. by apply prefix_app_r.
  - destruct Pjd as [_ _ _ _ _ _ (rows & -> & _ & Hs & _)]. exact Hs.
Qed.

Lemma adoption_monotone_witness :
  ∃ mj mk,
    run_for 1 ring_graph (small_parameters (Some 1%Z) 3 3 2) low_then_high = Ok mj ∧
    run_for (1 + 2) ring_graph (small_parameters (Some 1%Z) 3 3 2) low_then_high
    = Ok mk ∧
    n_adopters mj ≤ n_adopters mk ∧
    Sorted le (recorded mk).*2.
Proof.
  eexists _, _. split; [vm_compute; reflexivity|].
  split; [vm_compute; reflexivity|].
  edestruct (adoption_monotone ring_graph (small_parameters (Some 1%Z) 3 3 2)
               low_then_high 1 2) as (_ & Hn & _ & Hs);
    [vm_compute; reflexivity|vm_compute; reflexivity|].
  split; [exact Hn|exact Hs].
Defined.

(** ** The commit *)

(** C3.  At every tick of a run, with [m1] the model at the end of
    phase 1, [MarketModel.update] makes an adopter of every agent whose
    flag is set and leaves the other agents as they are, clears every
    flag, and adds to [n_adopters] the number of agents that were not
    adopters and now are, which is the number of flags that were set:
    a flag set by several contacts, or by the advertisement and a
    contact, counts once. *)
Theorem commit_phase ws prm rng k m m1 :
  run_for k ws prm rng = Ok m →
  MarketModel.step (set_t (S (t m)) m) = Ok m1 →
  let m2 := MarketModel.update m1 in
  agents m2 =
  (λ a, with_become_adopter false
          (with_is_adopter (is_adopter a || become_adopter a) a)) <$> agents m1 ∧
  clean (agents m2) ∧
  n_adopters m2 = n_adopters m1 + transitions (agents m1) (agents m2) ∧
  transitions (agents m1) (agents m2) = count become_adopter (agents m1).
Proof.
  unfold run_for. rewrite sim_setup_eq.
  destruct (ws _ _ _) as [g|e]; [|done]. cbn. intros Hk Hstep.
  pose proof (sim_steps_progress _ _ _ (started_ready g prm rng) Hk) as Pk.
  destruct (progress_ready _ _ _ Pk) as [Hclean _].
  apply for_each_step_Ok in Hstep as (T & Heq & HT). cbn in HT.
  assert (sound (agents m1)) as Hs.
  { rewrite Heq. autorewrite with model. by apply sound_mark. }
  rewrite model_update_eq. cbn.
  rewrite transitions_commit by done. repeat split.
  - apply list_fmap_ext. intros _ a _. unfold commit.
    destruct a as [? ? ? [] [] ?]; reflexivity.
  - apply clean_commit.
Qed.

Lemma commit_phase_witness :
  let prm := small_parameters (Some 1%Z) 3 3 2 in
  ∃ m m1,
    run_for 0 ring_graph prm always_low = Ok m ∧
    MarketModel.step (set_t (S (t m)) m) = Ok m1 ∧
    become_adopter <$> agents m1 = [true; true; true] ∧
    n_adopters m1 = 0 ∧
    is_adopter <$> agents (MarketModel.update m1) = [true; true; true] ∧
    n_adopters (MarketModel.update m1) = 3 ∧
    n_adopters (MarketModel.update m1) =
    n_adopters m1 + transitions (agents m1) (agents (MarketModel.update m1)).
Proof.
  cbv zeta. eexists _, _. split; [vm_compute; reflexivity|].
  split; [vm_compute; reflexivity|].
  split; [vm_compute; reflexivity|]. split; [vm_compute; reflexivity|].
  split; [vm_compute; reflexivity|]. split; [vm_compute; reflexivity|].
  edestruct (commit_phase ring_graph (small_parameters (Some 1%Z) 3 3 2)
               always_low 0) as (_ & _ & Hn & _);
    [vm_compute; reflexivity|vm_compute; reflexivity|].
  exact Hn.
Defined.

(** ** The recorded series *)

Lemma sim_steps_Raise k m e : sim_steps k m = Raise e → e = IndexError.
Proof.
  revert m. induction k as [|k IH]; intros m; cbn; [done|].
  destruct (sim_step m) as [m1|e1] eqn:Hstep; cbn.
  - apply IH.
  - intros [= <-]. by apply sim_step_Raise in Hstep.
Qed.

(** A run on the graph [g] returns its rows, unless a node of [g] is
    isolated and the run raises. *)
Lemma run_rows ws prm rng g :
  ws (n_agents prm) (n_neighbors prm) (network_randomness prm) = Ok g →
  match run ws prm rng with
  | Ok m => ∃ rows, recorded m = (0, 0) :: rows ∧
                    rows.*1 = seq 1 (steps prm) ∧
                    Forall (λ n, n ≤ n_agents prm) rows.*2
  | Raise e => e = IndexError ∧ ¬ no_isolated g (n_agents prm)
  end.
Proof.
  intros Hg. unfold run. rewrite sim_setup_eq, Hg. cbn.
  pose proof (started_ready g prm rng) as Hr0.
  destruct (sim_steps _ _) as [m|e] eqn:Hm.
  - destruct (sim_steps_progress _ _ _ Hr0 Hm)
      as [_ _ _ _ _ _ (rows & Hrec & Hts & _ & Hall)].
    cbn in *. rewrite length_fresh_agents in Hall. by exists rows.
  - split; [by apply sim_steps_Raise in Hm|]. intros Hiso.
    destruct (sim_steps_total (steps prm) (started g prm rng) Hr0) as [m Hok].
    + cbn. by apply connected_fresh.
    + congruence.
Qed.

(** C6, as the code has it.  A run returns a series of [steps + 1]
    rows, one for [t = 0] and one for every tick, at
    [t = 0, 1, ..., steps], and every recorded value of [n_adopters] is
    at most [n_agents].  The one way for a run not to return is the
    exception of an agent without neighbours, on a graph that has an
    isolated node. *)
Theorem run_series_bounded ws prm rng g :
  ws (n_agents prm) (n_neighbors prm) (network_randomness prm) = Ok g →
  match run ws prm rng with
  | Ok m => length (recorded m) = S (steps prm) ∧
            (recorded m).*1 = seq 0 (S (steps prm)) ∧
            Forall (λ row, row.2 ≤ n_agents prm) (recorded m)
  | Raise e => e = IndexError ∧ ¬ no_isolated g (n_agents prm)
  end.
Proof.
  intros Hg. pose proof (run_rows ws prm rng g Hg) as H.
  destruct (run ws prm rng) as [m|e]; [|done].
  destruct H as (rows & Hrec & Hts & Hall).
  rewrite Hrec. cbn. rewrite Hts. repeat split.
  - f_equal. by rewrite <- (length_fmap fst), Hts, length_seq.
  - constructor; [cbn; lia|]. by apply Forall_fmap in Hall.
Qed.

Lemma run_series_bounded_witness :
  let prm := small_parameters (Some 1%Z) 2 3 2 in
  ring_graph (n_agents prm) (n_neighbors prm) (network_randomness prm)
  = Ok (ring 3 2) ∧
  recorded <$> run ring_graph prm low_then_high = Ok [(0, 0); (1, 1); (2, 1)] ∧
  match run ring_graph prm low_then_high with
  | Ok m => length (recorded m) = 3 ∧
            (recorded m).*1 = [0; 1; 2] ∧
            Forall (λ row, row.2 ≤ 3) (recorded m)
  | Raise e => e = IndexError ∧ ¬ no_isolated (ring 3 2) 3
  end.
Proof.
  cbv zeta. split; [reflexivity|]. split; [vm_compute; reflexivity|].
  apply (run_series_bounded ring_graph (small_parameters (Some 1%Z) 2 3 2)
           low_then_high (ring 3 2)).
  reflexivity.
Defined.

(** C6 fails on the number of rows: a run of one tick returns two
    rows, the first of them recorded before the tick. *)
Lemma run_series_one_step :
  let prm := small_parameters (Some 1%Z) 1 3 2 in
  steps prm = 1 ∧
  recorded <$> run ring_graph prm low_then_high = Ok [(0, 0); (1, 1)].
Proof. cbv zeta. split; [reflexivity|]. vm_compute. reflexivity. Qed.

(** C10.  [setup] creates agents that are not adopters and whose flag
    is not set, the first [update] records [n_adopters = 0] at [t = 0]
    before any step, and a run returns [steps + 1] rows of which this
    is the first.  The one way for a run not to return is the
    exception of an agent without neighbours, on a graph that has an
    isolated node. *)
Theorem run_first_row ws prm rng g :
  ws (n_agents prm) (n_neighbors prm) (network_randomness prm) = Ok g →
  (∃ m0, sim_setup ws (new_model prm rng) = Ok m0 ∧
         t m0 = 0 ∧ n_adopters m0 = 0 ∧
         recorded m0 = [(0, 0)] ∧
         length (agents m0) = n_agents prm ∧
         Forall (λ a, is_adopter a = false ∧ become_adopter a = false)
                (agents m0)) ∧
  match run ws prm rng with
  | Ok m => length (recorded m) = steps prm + 1 ∧
            recorded m !! 0 = Some (0, 0)
  | Raise e => e = IndexError ∧ ¬ no_isolated g (n_agents prm)
  end.
Proof.
  intros Hg. split.
  - rewrite sim_setup_eq, Hg. cbn. eexists. split; [done|]. cbn.
    rewrite length_fresh_agents. repeat split.
    eapply Forall_impl; [apply fresh_agents_new|]. by intros a (? & ? & _).
  - pose proof (run_rows ws prm rng g Hg) as H.
    destruct (run ws prm rng) as [m|e]; [|done].
    destruct H as (rows & Hrec & Hts & _).
    rewrite Hrec. cbn. split; [|done].
    rewrite <- (length_fmap fst), Hts, length_seq. lia.
Qed.

Lemma run_first_row_witness :
  let prm := small_parameters (Some 1%Z) 2 3 2 in
  ring_graph (n_agents prm) (n_neighbors prm) (network_randomness prm)
  = Ok (ring 3 2) ∧
  recorded <$> run ring_graph prm always_low = Ok [(0, 0); (1, 3); (2, 3)] ∧
  match run ring_graph prm always_low with
  | Ok m => length (recorded m) = 2 + 1 ∧ recorded m !! 0 = Some (0, 0)
  | Raise e => e = IndexError ∧ ¬ no_isolated (ring 3 2) 3
  end.
Proof.
  cbv zeta. split; [reflexivity|]. split; [vm_compute; reflexivity|].
  apply (run_first_row ring_graph (small_parameters (Some 1%Z) 2 3 2)
           always_low (ring 3 2)).
  reflexivity.
Defined.

(** ** Initialization *)

(** C7, as the code has it.  Initialization on parameters without a
    seed does not fail for want of a seed, which [setup] never reads:
    it raises what the graph constructor raises, when the constructor
    raises, and otherwise returns the model of [n_agents] agents that
    are not adopters on the graph that the constructor returned, with
    the counter 0, the clock 0, the first row [(0, 0)] and the
    generator that the framework gave to the model. *)
Theorem init_without_seed_returns ws prm rng :
  sim_setup ws (new_model (with_seed None prm) rng) =
  match ws (n_agents prm) (n_neighbors prm) (network_randomness prm) with
  | Raise e => Raise e
  | Ok g => Ok (started g (with_seed None prm) rng)
  end.
Proof. rewrite sim_setup_eq. cbn. by destruct (ws _ _ _). Qed.

(** C7 fails: initialization on parameters without a seed returns a
    model, with its agents. *)
Lemma init_without_seed :
  let prm := small_parameters None 1 3 2 in
  seed prm = None ∧
  sim_setup ring_graph (new_model prm always_low)
  = Ok (started (ring 3 2) prm always_low) ∧
  length (agents (started (ring 3 2) prm always_low)) = 3.
Proof.
  cbv zeta. split; [reflexivity|]. split; [|reflexivity].
  rewrite sim_setup_eq. reflexivity.
Qed.

(** C8, as the code has it.  [MarketModel.setup] checks none of its
    parameters: it hands them to the graph constructor, raises what the
    constructor raises, and on the graph the constructor returns it
    creates [n_agents] agents. *)
Theorem setup_checks_nothing ws m :
  MarketModel.setup ws m =
  match ws (n_agents (p m)) (n_neighbors (p m)) (network_randomness (p m)) with
  | Raise e => Raise e
  | Ok g => Ok (set_agents (fresh_agents g (n_agents (p m)))
                  (set_network g (set_n_adopters 0 m)))
  end.
Proof. rewrite model_setup_eq. by destruct (ws _ _ _). Qed.

(** C8 fails: with a graph constructor that accepts its arguments,
    initialization returns a model when [n_neighbors] is odd, when
    [n_neighbors] is [n_agents], and when [n_agents] is 2. *)
Lemma setup_accepts :
  let init k n nb :=
    (λ m, length (agents m)) <$>
      sim_setup ring_graph (new_model (small_parameters (Some 1%Z) k n nb) always_low)
  in
  Nat.odd 3 = true ∧ init 1 5 3 = Ok 5 ∧
  4 ≥ 4 ∧ init 1 4 4 = Ok 4 ∧
  2 < 3 ∧ init 1 2 1 = Ok 2.
Proof.
  cbv zeta. repeat split; try lia; vm_compute; reflexivity.
Qed.


(** * Further properties *)

(** ** Induction on the ticks of a run *)

Lemma sim_steps_invariant (P : Model → Prop) :
  (∀ m T r, ready m → P m → Forall (waiting (agents m)) T →
            P (after_tick T r m)) →
  ∀ k m m', ready m → P m → sim_steps k m = Ok m' → P m'.
Proof.
  intros Hstep. induction k as [|k IH]; intros m m' Hr HP; cbn.
  { by intros [= <-]. }
  destruct (sim_step m) as [m1|e] eqn:H1; [|done]. cbn.
  apply sim_step_Ok in H1 as (T & r & HT & ->).
  apply IH.
  - by apply after_tick_ready.
  - by apply Hstep.
Qed.

Lemma run_for_invariant (P : Model → Prop) ws prm rng g :
  ws (n_agents prm) (n_neighbors prm) (network_randomness prm) = Ok g →
  P (started g prm rng) →
  (∀ m T r, ready m → P m → Forall (waiting (agents m)) T →
            P (after_tick T r m)) →
  ∀ k m, run_for k ws prm rng = Ok m → P m.
Proof.
  intros Hg H0 Hstep k m. unfold run_for. rewrite sim_setup_eq, Hg. cbn.
  apply (sim_steps_invariant P Hstep); [apply started_ready|done].
Qed.

Lemma run_for_ready ws prm rng k m : run_for k ws prm rng = Ok m → ready m.
Proof.
  unfold run_for. rewrite sim_setup_eq.
  destruct (ws _ _ _) as [g|e]; [|done]. cbn. intros Hk.
  by destruct (sim_steps_progress _ _ _ (started_ready g prm rng) Hk).
Qed.

(** ** The attributes of the agents *)

Lemma attributes_tick T l :
  attributes <$> (commit <$> mark T l) = attributes <$> l.
Proof.
  apply list_eq; intros j. rewrite !list_lookup_fmap, lookup_mark.
  destruct (l !! j) as [a|]; [|done]. cbn. f_equal. unfold commit.
  destruct (bool_decide _); cbn; [done|]. by destruct (become_adopter a).
Qed.

(** X1.  In every run, after any number of ticks, the model still has
    [n_agents] agents, the graph that the constructor returned and its
    parameters, and agent [i] still has the attributes that [setup]
    gave it ([ad_effectiveness] and [adoption_fraction] 0.01,
    [contact_rate] 1) and, as its neighbours, the neighbours of node
    [i] in the graph. *)
Theorem attributes_constant ws prm rng g k m :
  ws (n_agents prm) (n_neighbors prm) (network_randomness prm) = Ok g →
  run_for k ws prm rng = Ok m →
  length (agents m) = n_agents prm ∧ network m = g ∧ p m = prm ∧
  ∀ i a, agents m !! i = Some a →
         ad_effectiveness a = 1 # 100 ∧ adoption_fraction a = 1 # 100 ∧
         contact_rate a = 1%Z ∧ neighbors a = default [] (g !! i).
Proof.
  intros Hg Hrun.
  assert (network m = g ∧ p m = prm ∧
          attributes <$> agents m =
          attributes <$> fresh_agents g (n_agents prm)) as (Hn & Hp & Hattr).
  { revert Hrun. apply (run_for_invariant
      (λ m, network m = g ∧ p m = prm ∧
            attributes <$> agents m =
            attributes <$> fresh_agents g (n_agents prm)) ws prm rng g Hg).
    - done.
    - intros m0 T r _ (? & ? & Ha) _. cbn. by rewrite attributes_tick. }
  split; [|split; [done|split; [done|]]].
  - by rewrite <- (length_fmap attributes), Hattr, length_fmap,
      length_fresh_agents.
  - intros i a Ha.
    pose proof (f_equal (λ l, l !! i) Hattr) as Hi. cbn in Hi.
    rewrite !list_lookup_fmap, Ha, lookup_fresh_agents in Hi.
    destruct (decide _); [|done]. cbn in Hi.
    by injection Hi as -> -> -> ->.
Qed.

Lemma attributes_constant_witness :
  let prm := small_parameters (Some 1%Z) 2 3 2 in
  ∃ m, ring_graph (n_agents prm) (n_neighbors prm) (network_randomness prm)
       = Ok (ring 3 2) ∧
       run_for 2 ring_graph prm always_low = Ok m ∧
       length (agents m) = 3 ∧ network m = ring 3 2.
Proof.
  cbv zeta. eexists. split; [reflexivity|]. split; [vm_compute; reflexivity|].
  edestruct (attributes_constant ring_graph (small_parameters (Some 1%Z) 2 3 2)
               always_low (ring 3 2) 2) as (Hlen & Hnet & _);
    [reflexivity|vm_compute; reflexivity|].
  split; [exact Hlen|exact Hnet].
Defined.

(** ** The counter and the adopters *)

Lemma count_filter f l :
  count f l = length (filter (λ b, b = true) (f <$> l)).
Proof.
  induction l as [|a l IH]; [done|]. rewrite fmap_cons, filter_cons.
  cbn [count]. rewrite IH.
  destruct (decide (f a = true)) as [Hf|Hf].
  - by rewrite Hf.
  - by destruct (f a).
Qed.

(** X2.  In every run, after setup and after every tick, no flag
    [become_adopter] is set, the counter [n_adopters] is the number of
    agents whose [is_adopter] is true, that is the number of [True] in
    the vector that [end] records, the clock is the number of ticks
    made, and the last recorded row is the clock with the counter. *)
Theorem counter_counts_adopters ws prm rng k m :
  run_for k ws prm rng = Ok m →
  clean (agents m) ∧
  n_adopters m = length (filter (λ b, b = true) (MarketModel.end_ m)) ∧
  t m = k ∧
  last (recorded m) = Some (k, n_adopters m).
Proof.
  intros Hrun. destruct (run_for_ready _ _ _ _ _ Hrun) as [Hclean Hn].
  split; [done|]. split.
  { unfold MarketModel.end_. by rewrite <- count_filter. }
  revert Hrun. unfold run_for. rewrite sim_setup_eq.
  destruct (ws _ _ _) as [g|e]; [|done]. cbn. intros Hk.
  pose proof (started_ready g prm rng) as Hr0.
  pose proof (progress_t _ _ _ (sim_steps_progress _ _ _ Hr0 Hk)) as Ht.
  cbn in Ht. split; [done|]. rewrite <- Ht.
  revert Hk. apply (sim_steps_invariant
    (λ m, last (recorded m) = Some (t m, n_adopters m))); [|done|done].
  intros m0 T r _ _ _. cbn. by rewrite last_snoc.
Qed.

Lemma counter_counts_adopters_witness :
  ∃ m, run_for 2 ring_graph (small_parameters (Some 1%Z) 2 3 2) low_then_high
       = Ok m ∧
       n_adopters m = length (filter (λ b, b = true) (MarketModel.end_ m)) ∧
       last (recorded m) = Some (2, n_adopters m).
Proof.
  eexists. split; [vm_compute; reflexivity|].
  edestruct (counter_counts_adopters ring_graph
               (small_parameters (Some 1%Z) 2 3 2) low_then_high 2)
    as (_ & Hn & _ & Hlast); [vm_compute; reflexivity|].
  split; [exact Hn|exact Hlast].
Defined.

(** ** The flags at the end of phase 1 *)

Lemma reached_mark order T l j : reached order (mark T l) j ↔ reached order l j.
Proof.
  unfold reached. split; (intros [Hj|(s & a & Hs & Ha & Had & Hn)]; [by left|right]).
  - rewrite lookup_mark in Ha. destruct (l !! s) as [a0|] eqn:Ha0; [|done].
    cbn in Ha. injection Ha as <-. exists s, a0.
    by destruct (bool_decide _).
  - exists s. rewrite lookup_mark, Ha. cbn. eexists. split; [done|].
    split; [done|]. by destruct (bool_decide _).
Qed.

Lemma outcome_reached self l r T r' :
  outcome self l r = Ok (T, r') → Forall (reached [self] l) T.
Proof.
  unfold outcome. destruct (l !! self) as [a|] eqn:Ha.
  - destruct (is_adopter a) eqn:Had.
    + destruct (choices _ _ _) as [r1|e]; [|done]. intros [= <- <-]. constructor.
    + intros [= <- <-]. destruct (Qltb _ _); [|constructor].
      constructor; [|constructor]. left. set_solver.
  - intros [= <- <-]. constructor.
Qed.

Lemma reached_mono order1 order2 l j :
  order1 ⊆ order2 → reached order1 l j → reached order2 l j.
Proof.
  intros Hsub [Hj|(s & a & Hs & Ha)]; [left; set_solver|].
  right. exists s, a. split; [set_solver|done].
Qed.

Lemma for_each_step_reached order m m' :
  for_each ConsumerAgent.step order m = Ok m' →
  ∃ T, m' = put (mark T (agents m)) (random m') m ∧
       Forall (waiting (agents m)) T ∧
       Forall (reached order (agents m)) T.
Proof.
  revert m. induction order as [|i order IH]; intros m; cbn.
  { intros [= <-]. exists []. rewrite mark_nil, put_id. by repeat split. }
  rewrite step_outcome.
  destruct (outcome i _ _) as [[T1 r1]|e] eqn:Hout; [|done]. cbn.
  intros Hrest. pose proof (outcome_waiting _ _ _ _ _ Hout) as HW1.
  apply outcome_reached in Hout.
  apply IH in Hrest as (T2 & -> & HW2 & HR2). autorewrite with model in *.
  exists (T1 ++ T2). rewrite mark_mark. split; [done|]. split.
  - apply Forall_app. split; [done|].
    eapply Forall_impl; [exact HW2|]. intros j. by rewrite waiting_mark.
  - apply Forall_app. split.
    + eapply Forall_impl; [exact Hout|]. intros j.
      apply reached_mono. set_solver.
    + eapply Forall_impl; [exact HR2|]. intros j. rewrite reached_mark.
      apply reached_mono. set_solver.
Qed.

(** X3.  A sweep of [step] over the agents in [order], on a store
    without flags, sets the flag [become_adopter] only of agents that
    are not adopters, and only of agents that have their turn in the
    sweep or are a neighbour of an adopter that has: no other agent
    is flagged. *)
Theorem flags_reach order m m' i a' :
  clean (agents m) →
  for_each ConsumerAgent.step order m = Ok m' →
  agents m' !! i = Some a' →
  become_adopter a' = true →
  is_adopter a' = false ∧ reached order (agents m) i.
Proof.
  intros Hclean Hsweep Hi Hflag.
  apply for_each_step_reached in Hsweep as (T & Heq & HW & HR).
  rewrite Heq in Hi. autorewrite with model in Hi.
  rewrite lookup_mark in Hi.
  destruct (agents m !! i) as [a|] eqn:Ha; [|done]. cbn in Hi.
  case_bool_decide as HiT.
  - injection Hi as <-. cbn.
    destruct (proj1 (Forall_forall _ _) HW i HiT) as (a0 & Ha0 & Had).
    split; [congruence|]. by apply (proj1 (Forall_forall _ _) HR i).
  - injection Hi as <-.
    by rewrite (proj1 (Forall_lookup _ _) Hclean i a Ha) in Hflag.
Qed.

Lemma flags_reach_witness :
  let m := started (ring 3 2) (small_parameters (Some 1%Z) 1 3 2) low_then_high in
  ∃ m' a',
    clean (agents m) ∧
    for_each ConsumerAgent.step [0; 1; 2] m = Ok m' ∧
    agents m' !! 0 = Some a' ∧
    become_adopter a' = true ∧
    is_adopter a' = false ∧ reached [0; 1; 2] (agents m) 0.
Proof.
  cbv zeta. eexists _, _.
  split; [apply clean_fresh|].
  split; [vm_compute; reflexivity|].
  split; [vm_compute; reflexivity|].
  split; [reflexivity|].
  eapply (flags_reach [0; 1; 2]
            (started (ring 3 2) (small_parameters (Some 1%Z) 1 3 2) low_then_high)).
  - apply clean_fresh.
  - vm_compute. reflexivity.
  - vm_compute. reflexivity.
  - reflexivity.
Defined.

(** ** The commit, again *)

(** X4.  In a time step that has no row yet, as at every call of a
    run, [MarketModel.update] makes no call on the generator and leaves
    the clock, the parameters, the network and the attributes of every
    agent as they are; it appends exactly one row, the clock with the
    new value of the counter, and the counter grows by at most the
    number of agents. *)
Theorem update_frame m :
  t m ∉ (recorded m).*1 →
  let m' := MarketModel.update m in
  random m' = random m ∧ t m' = t m ∧ p m' = p m ∧ network m' = network m ∧
  attributes <$> agents m' = attributes <$> agents m ∧
  recorded m' = recorded m ++ [(t m, n_adopters m')] ∧
  n_adopters m ≤ n_adopters m' ≤ n_adopters m + length (agents m).
Proof.
  intros _. cbv zeta. rewrite model_update_eq. cbn. repeat split.
  - apply list_eq; intros j. rewrite !list_lookup_fmap.
    destruct (agents m !! j) as [a|]; [|done]. cbn. f_equal.
    unfold commit. by destruct (become_adopter a).
  - lia.
  - pose proof (count_le become_adopter (agents m)). lia.
Qed.

Lemma update_frame_witness :
  (t three_flagged ∉ (recorded three_flagged).*1) ∧
  recorded three_flagged = [(0, 0)] ∧
  random (MarketModel.update three_flagged) = random three_flagged ∧
  recorded (MarketModel.update three_flagged) = [(0, 0); (1, 3)].
Proof.
  assert (t three_flagged ∉ (recorded three_flagged).*1) as Hfresh.
  { vm_compute. by intros ?%list_elem_of_singleton. }
  split; [exact Hfresh|]. split; [vm_compute; reflexivity|].
  destruct (update_frame three_flagged Hfresh) as (Hr & _ & _ & _ & _ & Hrec & _).
  split; [exact Hr|]. rewrite Hrec. vm_compute. reflexivity.
Defined.

Lemma agent_update_comm i j m :
  ConsumerAgent.update j (ConsumerAgent.update i m) =
  ConsumerAgent.update i (ConsumerAgent.update j m).
Proof.
  destruct (decide (i = j)) as [->|Hne]; [done|].
  rewrite !agent_update_eq. cbn. unfold flagged.
  rewrite !list_lookup_alter_ne by done.
  rewrite (list_alter_alter_ne commit commit) by done.
  unfold set_n_adopters, set_agents. cbn. f_equal. lia.
Qed.

Lemma foldl_update_perm l1 l2 :
  l1 ≡ₚ l2 →
  ∀ m, foldl (λ m i, ConsumerAgent.update i m) m l1 =
       foldl (λ m i, ConsumerAgent.update i m) m l2.
Proof.
  induction 1 as [|i l1 l2 _ IH|i j l|l1 l2 l3 _ IH1 _ IH2]; intros m; cbn.
  - done.
  - apply IH.
  - by rewrite agent_update_comm.
  - by rewrite IH1.
Qed.

(** X6.  The commit does not depend on the order in which
    [agents.update()] visits the agents: visiting them in any
    permutation of the list gives the model of [MarketModel.update]. *)
Theorem update_order_independent order m :
  order ≡ₚ agent_ids m → update_in order m = MarketModel.update m.
Proof.
  intros Hperm. unfold update_in, MarketModel.update.
  by rewrite (foldl_update_perm _ _ Hperm).
Qed.

Lemma update_order_independent_witness :
  ∃ m1,
    MarketModel.step (started (ring 3 2) (small_parameters (Some 1%Z) 1 3 2)
                        always_low) = Ok m1 ∧
    [2; 0; 1] ≡ₚ agent_ids m1 ∧
    update_in [2; 0; 1] m1 = MarketModel.update m1.
Proof.
  eexists. split; [vm_compute; reflexivity|].
  assert ([2; 0; 1] ≡ₚ [0; 1; 2]) as Hperm.
  { change [2; 0; 1] with ([2] ++ [0; 1]). change [0; 1; 2] with ([0; 1] ++ [2]).
    apply Permutation_app_comm. }
  split; [exact Hperm|].
  apply (update_order_independent [2; 0; 1]). exact Hperm.
Defined.

(** ** Exceptions come after adoptions *)

Lemma count_zero f l : count f l = 0 → Forall (λ a, f a = false) l.
Proof.
  induction l as [|a l IH]; cbn; [constructor|].
  destruct (f a) eqn:Hf; [lia|]. intros H. constructor; [done|by apply IH].
Qed.

Lemma outcome_waiting_total self l r :
  Forall (λ a, is_adopter a = false) l → ∃ T r', outcome self l r = Ok (T, r').
Proof.
  intros Hall. unfold outcome. destruct (l !! self) as [a|] eqn:Ha; [|eauto].
  rewrite (proj1 (Forall_lookup _ _) Hall self a Ha). cbn. eauto.
Qed.

Lemma is_adopter_all_mark b T l :
  Forall (λ a, is_adopter a = b) l → Forall (λ a, is_adopter a = b) (mark T l).
Proof.
  rewrite !Forall_lookup. intros H j a'. rewrite lookup_mark.
  destruct (l !! j) as [a|] eqn:Ha; [|done]. cbn. intros [= <-].
  specialize (H j a Ha). by destruct (bool_decide _).
Qed.

Lemma for_each_step_waiting_total order m :
  Forall (λ a, is_adopter a = false) (agents m) →
  ∃ m', for_each ConsumerAgent.step order m = Ok m'.
Proof.
  revert m. induction order as [|i order IH]; intros m Hall; cbn; [eauto|].
  rewrite step_outcome.
  destruct (outcome_waiting_total i (agents m) (random m) Hall) as (T & r' & ->).
  cbn. apply IH. autorewrite with model. by apply is_adopter_all_mark.
Qed.

(** X7.  No tick raises as long as nobody has adopted, whatever the
    graph: when the counter is 0 after [k] ticks of a run, the run
    makes its next tick.  The first tick of a run is the case
    [k = 0]. *)
Theorem no_adopter_no_exception ws prm rng k m :
  run_for k ws prm rng = Ok m →
  n_adopters m = 0 →
  ∃ m', run_for (S k) ws prm rng = Ok m'.
Proof.
  intros Hrun Hn. destruct (run_for_ready _ _ _ _ _ Hrun) as [_ Hcount].
  rewrite Hn in Hcount. symmetry in Hcount. apply count_zero in Hcount.
  replace (S k) with (k + 1) by lia. revert Hrun. unfold run_for.
  destruct (sim_setup _ _) as [m0|e]; [|done]. cbn. rewrite sim_steps_add.
  intros ->. cbn. unfold sim_step, MarketModel.step.
  destruct (for_each_step_waiting_total (agent_ids (set_t (S (t m)) m))
              (set_t (S (t m)) m) Hcount) as [m1 ->].
  cbn. eauto.
Qed.

Lemma no_adopter_no_exception_witness :
  let prm := small_parameters None 2 3 1 in
  run_for 0 ring_graph prm always_low = Ok (started (ring 3 1) prm always_low) ∧
  n_adopters (started (ring 3 1) prm always_low) = 0 ∧
  ¬ no_isolated (ring 3 1) 3 ∧
  ∃ m', run_for 1 ring_graph prm always_low = Ok m'.
Proof.
  cbv zeta. split; [vm_compute; reflexivity|]. split; [reflexivity|]. split.
  - intros H. destruct (H 0) as (nbrs & Hn & Hne); [lia|].
    vm_compute in Hn. by injection Hn as <-.
  - apply (no_adopter_no_exception ring_graph (small_parameters None 2 3 1)
             always_low 0 (started (ring 3 1) (small_parameters None 2 3 1)
                                   always_low)).
    + vm_compute. reflexivity.
    + reflexivity.
Defined.

(** ** Runs without a successful sample *)

Lemma quiet_step g n i m :
  agents m = fresh_agents g n → i < n → quiet (random m) →
  ConsumerAgent.step i m =
  Ok (set_random
        (advance (random m) (Sampled (floats (random m) (calls (random m))))) m).
Proof.
  intros Hl Hi Hq. unfold ConsumerAgent.step.
  rewrite Hl, lookup_fresh_agents, decide_True by done. cbn.
  unfold ConsumerAgent.adopt. cbn.
  pose proof (Hq (calls (random m))) as Hx. unfold succeeds in Hx.
  by rewrite Hx.
Qed.

Lemma quiet_sweep g n order m :
  agents m = fresh_agents g n → quiet (random m) → Forall (λ i, i < n) order →
  ∃ r, for_each ConsumerAgent.step order m = Ok (set_random r m) ∧
       floats r = floats (random m) ∧
       calls r = calls (random m) + length order.
Proof.
  intros Hl Hq Horder. revert m Hl Hq.
  induction Horder as [|i order Hi _ IH]; intros m Hl Hq; cbn.
  { exists (random m). destruct m. split; [done|]. cbn. split; [done|lia]. }
  rewrite (quiet_step g n) by done. cbn.
  destruct (IH (set_random
                  (advance (random m) (Sampled (floats (random m) (calls (random m)))))
                  m)) as (r & -> & Hf & Hc); [done|done|].
  exists r. split; [done|]. cbn in *. split; [done|lia].
Qed.

Lemma quiet_tick g n m :
  agents m = fresh_agents g n → n_adopters m = 0 → quiet (random m) →
  ∃ r, sim_step m = Ok (record (set_random r (set_t (S (t m)) m))) ∧
       floats r = floats (random m) ∧
       calls r = calls (random m) + n.
Proof.
  intros Hl Hn Hq. unfold sim_step, MarketModel.step, agent_ids. cbn.
  rewrite Hl, length_fresh_agents.
  destruct (quiet_sweep g n (seq 0 n) (set_t (S (t m)) m)) as (r & -> & Hf & Hc);
    [done|done| |].
  { apply Forall_forall. intros i Hi%elem_of_seq. lia. }
  exists r. rewrite length_seq in Hc. split; [|done]. cbn. f_equal.
  rewrite model_update_eq. cbn. rewrite Hl.
  rewrite clean_count, clean_commit_id by apply clean_fresh.
  unfold record, set_n_adopters, set_agents. cbn. by rewrite Hn, <- Hl.
Qed.

Lemma quiet_steps g n k m :
  agents m = fresh_agents g n → n_adopters m = 0 → quiet (random m) →
  ∃ m', sim_steps k m = Ok m' ∧
        agents m' = fresh_agents g n ∧
        calls (random m') = calls (random m) + k * n ∧
        recorded m' = recorded m ++ ((λ i, (i, 0)) <$> seq (S (t m)) k).
Proof.
  revert m. induction k as [|k IH]; intros m Hl Hn Hq; cbn.
  { exists m. rewrite app_nil_r. repeat split; try done; lia. }
  destruct (quiet_tick g n m Hl Hn Hq) as (r & -> & Hf & Hc). cbn.
  destruct (IH (record (set_random r (set_t (S (t m)) m))))
    as (m' & -> & Hl' & Hc' & Hrec); [done|done|..].
  { intros i. cbn. rewrite Hf. apply Hq. }
  exists m'. split; [done|]. split; [done|]. cbn in *. split; [lia|].
  by rewrite Hrec, Hn, <- app_assoc.
Qed.

(** X8.  When no sample of the generator is below 0.01, a run returns
    whatever the graph, nobody adopts, every recorded value of
    [n_adopters] is 0, and the run makes exactly [steps * n_agents]
    calls on the generator, one [random()] for every agent in every
    tick. *)
Theorem quiet_run ws prm rng g :
  ws (n_agents prm) (n_neighbors prm) (network_randomness prm) = Ok g →
  quiet rng →
  ∃ m, run ws prm rng = Ok m ∧
       Forall (λ a, is_adopter a = false) (agents m) ∧
       recorded m = (λ i, (i, 0)) <$> seq 0 (S (steps prm)) ∧
       calls (random m) = calls rng + steps prm * n_agents prm.
Proof.
  intros Hg Hq. unfold run. rewrite sim_setup_eq, Hg. cbn.
  destruct (quiet_steps g (n_agents prm) (steps prm) (started g prm rng))
    as (m & -> & Hl & Hc & Hrec); [done|done|done|].
  exists m. split; [done|]. split; [|split; [|done]].
  - rewrite Hl. eapply Forall_impl; [apply fresh_agents_new|].
    by intros a (? & _).
  - by rewrite Hrec.
Qed.

Lemma quiet_run_witness :
  let prm := small_parameters None 2 3 1 in
  ring_graph (n_agents prm) (n_neighbors prm) (network_randomness prm)
  = Ok (ring 3 1) ∧
  quiet always_high ∧
  ∃ m, run ring_graph prm always_high = Ok m ∧
       recorded m = [(0, 0); (1, 0); (2, 0)] ∧
       calls (random m) = 6.
Proof.
  cbv zeta. split; [reflexivity|].
  assert (quiet always_high) as Hq by (intros k; reflexivity).
  split; [exact Hq|].
  destruct (quiet_run ring_graph (small_parameters None 2 3 1) always_high
              (ring 3 1)) as (m & Hrun & _ & Hrec & Hc); [reflexivity|exact Hq|].
  exists m. split; [exact Hrun|]. split; [exact Hrec|exact Hc].
Defined.

(** ** Runs in which every sample succeeds *)

Lemma eager_outcome g n i l r :
  static l = static (fresh_agents g n) → i < n →
  succeeds (floats r (calls r)) = true →
  outcome i l r = Ok ([i], advance r (Sampled (floats r (calls r)))).
Proof.
  intros Hs Hi Hx. rewrite (outcome_static i l (fresh_agents g n)) by done.
  unfold outcome. rewrite lookup_fresh_agents, decide_True by done. cbn.
  unfold succeeds in Hx. by rewrite Hx.
Qed.

Lemma eager_sweep g n order m :
  static (agents m) = static (fresh_agents g n) → eager (random m) →
  Forall (λ i, i < n) order →
  ∃ r, for_each ConsumerAgent.step order m = Ok (put (mark order (agents m)) r m).
Proof.
  intros Hs He Horder. revert m Hs He.
  induction Horder as [|i order Hi _ IH]; intros m Hs He; cbn.
  { exists (random m). by rewrite mark_nil, put_id. }
  rewrite step_outcome, (eager_outcome g n) by done. cbn.
  set (r1 := advance _ _).
  destruct (IH (put (mark [i] (agents m)) r1 m)) as (r & ->).
  - autorewrite with model. by rewrite static_mark.
  - intros k. apply He.
  - exists r. autorewrite with model. by rewrite mark_mark.
Qed.

Lemma count_all f l : Forall (λ a, f a = true) l → count f l = length l.
Proof. induction 1 as [|a l Ha _ IH]; cbn; [done|]. by rewrite Ha, IH. Qed.

(** X9.  When every sample of the generator is below 0.01, every agent
    adopts in the first tick of a run, whatever the graph: after one
    tick all agents are adopters and the rows are [(0, 0)] and
    [(1, n_agents)]. *)
Theorem eager_first_tick ws prm rng g :
  ws (n_agents prm) (n_neighbors prm) (network_randomness prm) = Ok g →
  eager rng →
  ∃ m, run_for 1 ws prm rng = Ok m ∧
       Forall (λ a, is_adopter a = true) (agents m) ∧
       n_adopters m = n_agents prm ∧
       recorded m = [(0, 0); (1, n_agents prm)].
Proof.
  intros Hg He. unfold run_for. rewrite sim_setup_eq, Hg. cbn.
  unfold sim_step, MarketModel.step, agent_ids. cbn.
  rewrite length_fresh_agents.
  destruct (eager_sweep g (n_agents prm) (seq 0 (n_agents prm))
              (set_t 1 (started g prm rng))) as (r & ->); [done|done| |].
  { apply Forall_forall. intros i Hi%elem_of_seq. lia. }
  cbn. eexists. split; [done|]. rewrite model_update_eq. cbn.
  autorewrite with model.
  assert (Forall (λ a, become_adopter a = true)
            (mark (seq 0 (n_agents prm)) (fresh_agents g (n_agents prm)))) as Hall.
  { apply Forall_lookup. intros j a. rewrite lookup_mark, lookup_fresh_agents.
    destruct (decide _) as [Hj|]; [|done]. cbn.
    rewrite bool_decide_eq_true_2 by (apply elem_of_seq; lia). by intros [= <-]. }
  rewrite (count_all _ _ Hall), length_mark, length_fresh_agents.
  repeat split. apply Forall_fmap. eapply Forall_impl; [exact Hall|].
  intros a Ha. cbn. unfold commit. by rewrite Ha.
Qed.

Lemma eager_first_tick_witness :
  let prm := small_parameters None 2 3 1 in
  ring_graph (n_agents prm) (n_neighbors prm) (network_randomness prm)
  = Ok (ring 3 1) ∧
  eager always_low ∧
  ∃ m, run_for 1 ring_graph prm always_low = Ok m ∧
       n_adopters m = 3 ∧ recorded m = [(0, 0); (1, 3)].
Proof.
  cbv zeta. split; [reflexivity|].
  assert (eager always_low) as He by (intros k; reflexivity).
  split; [exact He|].
  destruct (eager_first_tick ring_graph (small_parameters None 2 3 1) always_low
              (ring 3 1)) as (m & Hrun & _ & Hn & Hrec); [reflexivity|exact He|].
  exists m. split; [exact Hrun|]. split; [exact Hn|exact Hrec].
Defined.

(** ** A population of adopters *)

Lemma saturated_sweep order m m' :
  Forall (λ a, is_adopter a = true) (agents m) →
  for_each ConsumerAgent.step order m = Ok m' →
  m' = set_random (random m') m ∧
  ∃ h, history (random m') = history (random m) ++ h ∧
       forallb is_choice h = true.
Proof.
  intros Hall. revert m Hall.
  induction order as [|i order IH]; intros m Hall; cbn.
  { intros [= <-]. split; [by destruct m|]. exists []. by rewrite app_nil_r. }
  rewrite step_outcome. unfold outcome.
  destruct (agents m !! i) as [a|] eqn:Ha.
  - rewrite (proj1 (Forall_lookup _ _) Hall _ _ Ha).
    destruct (choices _ _ _) as [r1|e] eqn:Hc; [|done]. cbn.
    apply choices_Ok in Hc as ->.
    destruct (history_chosen (Z.to_nat (contact_rate a)) (length (neighbors a))
                (random m)) as (h1 & Hh1 & _ & Hch1 & _).
    rewrite mark_nil. intros Hrest.
    apply IH in Hrest as (Heq & h & Hh & Hch); [|done].
    split; [by rewrite Heq at 1|].
    exists (h1 ++ h). autorewrite with model in Hh.
    rewrite Hh, Hh1, <- app_assoc. split; [done|].
    by rewrite forallb_app, Hch1, Hch.
  - cbn. rewrite mark_nil, put_id. by apply IH.
Qed.

(** X10.  When every agent is an adopter (and has a neighbour), a tick
    changes no agent and not the counter: it records the same value of
    [n_adopters] again, and all its calls on the generator are choices
    of partners, no sample is drawn. *)
Theorem saturated_tick m :
  clean (agents m) →
  connected (agents m) →
  Forall (λ a, is_adopter a = true) (agents m) →
  ∃ m', sim_step m = Ok m' ∧
        agents m' = agents m ∧
        n_adopters m' = n_adopters m ∧
        recorded m' = recorded m ++ [(S (t m), n_adopters m)] ∧
        ∃ h, history (random m') = history (random m) ++ h ∧
             forallb is_choice h = true.
Proof.
  intros Hclean Hconn Hall. unfold sim_step, MarketModel.step.
  destruct (for_each_step_total (agent_ids (set_t (S (t m)) m))
              (set_t (S (t m)) m) Hconn) as [m1 Hsweep].
  rewrite Hsweep. cbn.
  destruct (saturated_sweep _ (set_t (S (t m)) m) _ Hall Hsweep)
    as (Heq & h & Hh & Hch).
  eexists. split; [done|]. rewrite model_update_eq, Heq. cbn.
  rewrite clean_count, clean_commit_id by done.
  repeat split; [lia|by rewrite Nat.add_0_r|]. by exists h.
Qed.

Lemma saturated_tick_witness :
  clean (agents three_adopters) ∧
  connected (agents three_adopters) ∧
  Forall (λ a, is_adopter a = true) (agents three_adopters) ∧
  ∃ m', sim_step three_adopters = Ok m' ∧
        agents m' = agents three_adopters ∧
        n_adopters m' = 3.
Proof.
  assert (clean (agents three_adopters)) as Hc by (repeat constructor).
  assert (connected (agents three_adopters)) as Hn by (repeat constructor; done).
  assert (Forall (λ a, is_adopter a = true) (agents three_adopters)) as Ha
    by (repeat constructor).
  split; [exact Hc|]. split; [exact Hn|]. split; [exact Ha|].
  destruct (saturated_tick three_adopters Hc Hn Ha) as (m' & Hs & Hag & Hcnt & _).
  exists m'. split; [exact Hs|]. split; [exact Hag|]. exact Hcnt.
Defined.

(** ** Adoptions and successful samples *)

Lemma successes_app h1 h2 : successes (h1 ++ h2) = successes h1 + successes h2.
Proof.
  induction h1 as [|[k|x] h1 IH]; cbn; [done|done|]. rewrite IH. lia.
Qed.

Lemma outcome_account self l r T r' :
  thresholds l →
  outcome self l r = Ok (T, r') →
  successes (history r') = successes (history r) + length T.
Proof.
  intros Hth. unfold outcome. destruct (l !! self) as [a|] eqn:Ha.
  - destruct (is_adopter a).
    + destruct (choices _ _ _) as [r1|e] eqn:Hc; [|done].
      intros [= <- <-]. apply choices_Ok in Hc as ->.
      destruct (history_chosen (Z.to_nat (contact_rate a)) (length (neighbors a)) r)
        as (h & -> & _ & _ & Hs).
      rewrite successes_app, Hs. cbn. lia.
    + intros [= <- <-]. cbn. rewrite successes_app. cbn.
      destruct (proj1 (Forall_lookup _ _) Hth _ _ Ha) as [-> _].
      unfold succeeds. destruct (Qltb _ _); cbn; lia.
  - intros [= <- <-]. cbn. lia.
Qed.

Lemma thresholds_mark T l : thresholds l → thresholds (mark T l).
Proof.
  unfold thresholds. rewrite !Forall_lookup. intros H j a'.
  rewrite lookup_mark. destruct (l !! j) as [a|] eqn:Ha; [|done].
  cbn. intros [= <-]. specialize (H j a Ha). by destruct (bool_decide _).
Qed.

Lemma thresholds_commit l : thresholds l → thresholds (commit <$> l).
Proof.
  intros H. apply Forall_fmap. eapply Forall_impl; [exact H|].
  intros a Ha. cbn. unfold commit. by destruct (become_adopter a).
Qed.

Lemma thresholds_fresh g n : thresholds (fresh_agents g n).
Proof.
  apply Forall_lookup. intros j a. rewrite lookup_fresh_agents.
  destruct (decide _); [|done]. by intros [= <-].
Qed.

Lemma for_each_step_account order m m' :
  thresholds (agents m) →
  for_each ConsumerAgent.step order m = Ok m' →
  ∃ T, m' = put (mark T (agents m)) (random m') m ∧
       Forall (waiting (agents m)) T ∧
       successes (history (random m')) =
       successes (history (random m)) + length T.
Proof.
  revert m. induction order as [|i order IH]; intros m Hth; cbn.
  { intros [= <-]. exists []. rewrite mark_nil, put_id. cbn.
    repeat split; [constructor|lia]. }
  rewrite step_outcome.
  destruct (outcome i _ _) as [[T1 r1]|e] eqn:Hout; [|done]. cbn.
  intros Hrest. pose proof (outcome_waiting _ _ _ _ _ Hout) as HW1.
  apply (outcome_account _ _ _ _ _ Hth) in Hout.
  apply IH in Hrest as (T2 & Heq & HW2 & Hacc).
  2:{ autorewrite with model. by apply thresholds_mark. }
  autorewrite with model in *.
  exists (T1 ++ T2). rewrite <- mark_mark. split; [done|]. split.
  - apply Forall_app. split; [done|].
    eapply Forall_impl; [exact HW2|]. intros j. by rewrite waiting_mark.
  - rewrite length_app. lia.
Qed.

Lemma count_alter_flag j l :
  count become_adopter (alter (with_become_adopter true) j l)
  ≤ 1 + count become_adopter l.
Proof.
  revert j. induction l as [|a l IH]; intros [|j]; cbn; try lia.
  specialize (IH j). destruct (become_adopter a); lia.
Qed.

Lemma count_mark_le T l :
  count become_adopter (mark T l) ≤ length T + count become_adopter l.
Proof.
  induction T as [|j T IH]; cbn.
  { by rewrite mark_nil. }
  assert (mark (j :: T) l = alter (with_become_adopter true) j (mark T l)) as ->.
  { rewrite alter_mark, mark_mark. apply mark_ext. set_solver. }
  pose proof (count_alter_flag j (mark T l)). lia.
Qed.

Lemma sim_steps_account k m m' :
  ready m → thresholds (agents m) →
  sim_steps k m = Ok m' →
  n_adopters m' + successes (history (random m))
  ≤ n_adopters m + successes (history (random m')).
Proof.
  revert m. induction k as [|k IH]; intros m Hr Hth; cbn.
  { intros [= <-]. lia. }
  destruct (sim_step m) as [m1|e] eqn:Hstep; [|done]. cbn. intros Hrest.
  revert Hstep. unfold sim_step, MarketModel.step.
  destruct (for_each _ _ _) as [m0|e] eqn:Hsweep; [|done]. cbn.
  intros [= <-].
  apply for_each_step_account in Hsweep as (T & Heq & HW & Hacc); [|done].
  cbn in HW, Hacc.
  assert (MarketModel.update m0 = after_tick T (random m0) m) as Hm1.
  { rewrite model_update_eq, Heq. by autorewrite with model. }
  rewrite Hm1 in Hrest.
  destruct (after_tick_ready T (random m0) m Hr HW) as (Hr1 & _ & _).
  apply IH in Hrest; [|done|].
  2:{ cbn. by apply thresholds_commit, thresholds_mark. }
  cbn in Hrest. destruct Hr as [Hclean _].
  pose proof (count_mark_le T (agents m)) as Hle.
  rewrite (clean_count _ Hclean) in Hle. lia.
Qed.

(** X11.  In every run, the number of adopters is at most the number
    of samples below 0.01 that the run has drawn from the generator:
    nobody adopts without a successful sample. *)
Theorem adoptions_need_successes ws prm rng k m :
  run_for k ws prm rng = Ok m →
  n_adopters m + successes (history rng)
  ≤ successes (history (random m)).
Proof.
  unfold run_for. rewrite sim_setup_eq.
  destruct (ws _ _ _) as [g|e]; [|done]. cbn. intros Hk.
  apply sim_steps_account in Hk; [done|apply started_ready|].
  apply thresholds_fresh.
Qed.

Lemma adoptions_need_successes_witness :
  ∃ m, run_for 2 ring_graph (small_parameters (Some 1%Z) 2 3 2) low_then_high
       = Ok m ∧
       n_adopters m = 1 ∧
       n_adopters m + successes (history low_then_high)
       ≤ successes (history (random m)).
Proof.
  eexists. split; [vm_compute; reflexivity|]. split; [reflexivity|].
  apply (adoptions_need_successes ring_graph (small_parameters (Some 1%Z) 2 3 2)
           low_then_high 2).
  vm_compute. reflexivity.
Defined.

(** ** The exceptions of a run *)

(** X12.  A run raises in two ways only: with the exception of the
    graph constructor, when the constructor raises, or with the
    [IndexError] of a draw from an empty neighbour list, and then the
    graph has an isolated node and the run was to make two ticks or
    more. *)
Theorem run_exceptions ws prm rng e :
  run ws prm rng = Raise e →
  ws (n_agents prm) (n_neighbors prm) (network_randomness prm) = Raise e ∨
  (e = IndexError ∧ 2 ≤ steps prm ∧
   ∃ g, ws (n_agents prm) (n_neighbors prm) (network_randomness prm) = Ok g ∧
        ¬ no_isolated g (n_agents prm)).
Proof.
  intros Hrun.
  destruct (ws (n_agents prm) (n_neighbors prm) (network_randomness prm))
    as [g|e0] eqn:Hg.
  - right. pose proof (run_rows ws prm rng g Hg) as Hrows.
    rewrite Hrun in Hrows. destruct Hrows as [-> Hiso].
    split; [done|]. split; [|by exists g].
    revert Hrun. unfold run. rewrite sim_setup_eq, Hg. cbn.
    destruct (steps prm) as [|[|k]]; [done| |lia].
    cbn. unfold sim_step, MarketModel.step.
    destruct (for_each_step_waiting_total
                (agent_ids (set_t (S (t (started g prm rng))) (started g prm rng)))
                (set_t (S (t (started g prm rng))) (started g prm rng)))
      as [m1 ->]; [|done].
    cbn. eapply Forall_impl; [apply fresh_agents_new|]. by intros a (? & _).
  - left. revert Hrun. unfold run. rewrite sim_setup_eq, Hg. cbn. congruence.
Qed.

Lemma run_exceptions_witness :
  let prm := small_parameters None 2 3 1 in
  run ring_graph prm always_low = Raise IndexError ∧
  2 ≤ steps prm ∧
  ¬ no_isolated (ring 3 1) 3.
Proof.
  cbv zeta.
  assert (run ring_graph (small_parameters None 2 3 1) always_low
          = Raise IndexError) as Hrun by (vm_compute; reflexivity).
  split; [exact Hrun|].
  destruct (run_exceptions ring_graph (small_parameters None 2 3 1) always_low
              IndexError Hrun) as [Hws|(_ & Hsteps & g & Hg & Hiso)].
  - discriminate Hws.
  - split; [exact Hsteps|]. injection Hg as <-. exact Hiso.
Defined.

(** ** Flags and turns *)

Lemma outcome_own self l r T r' :
  outcome self l r = Ok (T, r') → Forall (λ j, j = self) T.
Proof.
  unfold outcome. destruct (l !! self) as [a|].
  - destruct (is_adopter a).
    + destruct (choices _ _ _) as [r1|e]; [|done]. intros [= <- <-]. constructor.
    + intros [= <- <-]. destruct (Qltb _ _); repeat constructor.
  - intros [= <- <-]. constructor.
Qed.

Lemma for_each_step_own order m m' :
  for_each ConsumerAgent.step order m = Ok m' →
  ∃ T, m' = put (mark T (agents m)) (random m') m ∧
       Forall (waiting (agents m)) T ∧
       Forall (λ j, j ∈ order) T.
Proof.
  revert m. induction order as [|i order IH]; intros m; cbn.
  { intros [= <-]. exists []. rewrite mark_nil, put_id. by repeat split. }
  rewrite step_outcome.
  destruct (outcome i _ _) as [[T1 r1]|e] eqn:Hout; [|done]. cbn.
  intros Hrest. pose proof (outcome_waiting _ _ _ _ _ Hout) as HW1.
  apply outcome_own in Hout.
  apply IH in Hrest as (T2 & -> & HW2 & HO2). autorewrite with model in *.
  exists (T1 ++ T2). rewrite mark_mark. split; [done|]. split.
  - apply Forall_app. split; [done|].
    eapply Forall_impl; [exact HW2|]. intros j. by rewrite waiting_mark.
  - apply Forall_app. split.
    + eapply Forall_impl; [exact Hout|]. intros j ->. set_solver.
    + eapply Forall_impl; [exact HO2|]. intros j Hj. set_solver.
Qed.

(** X13.  A sweep of [step] over the agents in [order], on a store
    without flags, sets the flag [become_adopter] only of agents that
    have their own turn in the sweep (and are not adopters): the turn
    of an adopter sets no flag, of a neighbour or of anyone. *)
Theorem flags_own_turn order m m' i a' :
  clean (agents m) →
  for_each ConsumerAgent.step order m = Ok m' →
  agents m' !! i = Some a' →
  become_adopter a' = true →
  i ∈ order ∧ is_adopter a' = false.
Proof.
  intros Hclean Hsweep Hi Hflag.
  apply for_each_step_own in Hsweep as (T & Heq & HW & HO).
  rewrite Heq in Hi. autorewrite with model in Hi.
  rewrite lookup_mark in Hi.
  destruct (agents m !! i) as [a|] eqn:Ha; [|done]. cbn in Hi.
  case_bool_decide as HiT.
  - injection Hi as <-. cbn.
    destruct (proj1 (Forall_forall _ _) HW i HiT) as (a0 & Ha0 & Had).
    split; [|congruence]. by apply (proj1 (Forall_forall _ _) HO i).
  - injection Hi as <-.
    by rewrite (proj1 (Forall_lookup _ _) Hclean i a Ha) in Hflag.
Qed.

Lemma flags_own_turn_witness :
  ∃ m' a',
    clean (agents one_adopter) ∧
    for_each ConsumerAgent.step [0; 1] one_adopter = Ok m' ∧
    agents m' !! 1 = Some a' ∧
    become_adopter a' = true ∧
    1 ∈ [0; 1] ∧ is_adopter a' = false.
Proof.
  assert (clean (agents one_adopter)) as Hc by (repeat constructor).
  eexists _, _. split; [exact Hc|].
  split; [vm_compute; reflexivity|].
  split; [vm_compute; reflexivity|].
  split; [reflexivity|].
  eapply (flags_own_turn [0; 1] one_adopter).
  - exact Hc.
  - vm_compute. reflexivity.
  - vm_compute. reflexivity.
  - reflexivity.
Defined.

(** ** The calls on the generator *)

Lemma unit_rates_mark T l : unit_rates l → unit_rates (mark T l).
Proof.
  unfold unit_rates. rewrite !Forall_lookup. intros H j a'.
  rewrite lookup_mark. destruct (l !! j) as [a|] eqn:Ha; [|done].
  cbn. intros [= <-]. specialize (H j a Ha). by destruct (bool_decide _).
Qed.

Lemma unit_rates_commit l : unit_rates l → unit_rates (commit <$> l).
Proof.
  intros H. apply Forall_fmap. eapply Forall_impl; [exact H|].
  intros a Ha. cbn. unfold commit. by destruct (become_adopter a).
Qed.

Lemma unit_rates_fresh g n : unit_rates (fresh_agents g n).
Proof.
  eapply Forall_impl; [apply fresh_agents_new|]. by intros a (_ & _ & ?).
Qed.

Lemma outcome_calls self l r T r' :
  unit_rates l → self < length l →
  outcome self l r = Ok (T, r') → calls r' = S (calls r).
Proof.
  intros Hrates Hself. unfold outcome.
  destruct (lookup_lt_is_Some_2 _ _ Hself) as [a Ha]. rewrite Ha.
  destruct (is_adopter a).
  - rewrite (proj1 (Forall_lookup _ _) Hrates _ _ Ha).
    change (Z.to_nat 1) with 1.
    destruct (choices _ _ _) as [r1|e] eqn:Hc; [|done].
    intros [= <- <-]. apply choices_Ok in Hc as ->. cbn. lia.
  - by intros [= <- <-].
Qed.

Lemma for_each_step_calls order m m' :
  unit_rates (agents m) →
  Forall (λ i, i < length (agents m)) order →
  for_each ConsumerAgent.step order m = Ok m' →
  calls (random m') = calls (random m) + length order.
Proof.
  intros Hrates Horder. revert m Hrates Horder.
  induction order as [|i order IH]; intros m Hrates Horder; cbn.
  { intros [= <-]. lia. }
  apply Forall_cons in Horder as [Hi Horder].
  rewrite step_outcome.
  destruct (outcome i _ _) as [[T1 r1]|e] eqn:Hout; [|done]. cbn.
  apply (outcome_calls _ _ _ _ _ Hrates Hi) in Hout.
  intros Hrest. apply IH in Hrest.
  - autorewrite with model in Hrest. lia.
  - autorewrite with model. by apply unit_rates_mark.
  - autorewrite with model. by rewrite length_mark.
Qed.

Lemma sim_steps_calls k m m' :
  ready m → unit_rates (agents m) →
  sim_steps k m = Ok m' →
  calls (random m') = calls (random m) + k * length (agents m).
Proof.
  revert m. induction k as [|k IH]; intros m Hr Hrates; cbn.
  { intros [= <-]. lia. }
  destruct (sim_step m) as [m1|e] eqn:Hstep; [|done]. cbn. intros Hrest.
  revert Hstep. unfold sim_step, MarketModel.step.
  destruct (for_each _ _ _) as [m0|e] eqn:Hsweep; [|done]. cbn.
  intros [= <-].
  pose proof Hsweep as Hcalls.
  apply for_each_step_calls in Hcalls; [|done|].
  2:{ apply Forall_forall. intros i Hi. unfold agent_ids in Hi.
      apply elem_of_seq in Hi. cbn in *. lia. }
  apply for_each_step_Ok in Hsweep as (T & Heq & HW).
  cbn in HW, Hcalls. unfold agent_ids in Hcalls. cbn in Hcalls.
  rewrite length_seq in Hcalls.
  assert (MarketModel.update m0 = after_tick T (random m0) m) as Hm1.
  { rewrite model_update_eq, Heq. by autorewrite with model. }
  rewrite Hm1 in Hrest.
  destruct (after_tick_ready T (random m0) m Hr HW) as (Hr1 & _ & _).
  apply IH in Hrest; [|done|].
  2:{ cbn. by apply unit_rates_commit, unit_rates_mark. }
  cbn in Hrest. rewrite length_fmap, length_mark in Hrest. lia.
Qed.

(** X14.  Every tick of a run makes exactly [n_agents] calls on the
    generator, one for every agent: a run that has made [k] ticks has
    made [k * n_agents] calls, and setup and the commits none. *)
Theorem calls_per_tick ws prm rng k m :
  run_for k ws prm rng = Ok m →
  calls (random m) = calls rng + k * n_agents prm.
Proof.
  unfold run_for. rewrite sim_setup_eq.
  destruct (ws _ _ _) as [g|e]; [|done]. cbn. intros Hk.
  apply sim_steps_calls in Hk; [|apply started_ready|apply unit_rates_fresh].
  cbn in Hk. by rewrite length_fresh_agents in Hk.
Qed.

Lemma calls_per_tick_witness :
  ∃ m, run_for 2 ring_graph (small_parameters (Some 1%Z) 2 3 2) low_but_two
       = Ok m ∧
       n_adopters m = 3 ∧
       calls (random m) = calls low_but_two + 2 * 3.
Proof.
  eexists. split; [vm_compute; reflexivity|]. split; [reflexivity|].
  apply (calls_per_tick ring_graph (small_parameters (Some 1%Z) 2 3 2)
           low_but_two 2).
  vm_compute. reflexivity.
Defined.
